(** * Encryption drivers of the object server (swift/obj/encryptor.py)

    A shallow embedding of the classes [CryptoDriver], [FakeDriver] and
    [M2CryptoDriver], of the cipher object they drive
    ([M2Crypto.EVP.Cipher]), and the properties of the drivers. *)

From Stdlib Require Import ZArith Ascii String List Lia Bool Btauto.
From stdpp Require Import base option list gmap strings.

Local Open Scope Z_scope.

(** ** Python values and exceptions *)

(** The values that flow through the drivers: [None] and (byte) strings.
    A Python 2 [str] is a [string]: a sequence of 8-bit characters. *)
Inductive pyval : Type :=
  | PyNone
  | PyStr (s : string).

#[global] Instance pyval_eq_dec : EqDecision pyval.
Proof. solve_decision. Defined.

(** Exception classes that the drivers and their collaborators raise.
    [EVPError] is [M2Crypto.EVP.EVPError], a subclass of [Exception]. Any
    other class is kept by name: [ValueErrorSubclass] for a class that
    derives from [ValueError], [NamedError] for one that does not. *)
Inductive exn_class : Type :=
  | ValueError
  | NotImplementedError
  | IndexError
  | TypeError
  | EVPError
  | NamedError (name : string)
  | ValueErrorSubclass (name : string).

#[global] Instance exn_class_eq_dec : EqDecision exn_class.
Proof. solve_decision. Defined.

(** An exception instance: its class and its [args] tuple. *)
Record exn : Type := Exn { exn_cls : exn_class; exn_args : list pyval }.

#[global] Instance exn_eq_dec : EqDecision exn.
Proof. solve_decision. Defined.

(** The result of evaluating an expression: a value, or a raised exception. *)
Inductive outcome (A : Type) : Type :=
  | Return (a : A)
  | Raise (e : exn).
Arguments Return {A} a.
Arguments Raise {A} e.

#[global] Instance outcome_ret : MRet outcome := fun A a => Return a.
#[global] Instance outcome_bind : MBind outcome := fun A B k x =>
  match x with
  | Return a => k a
  | Raise e => Raise e
  end.

(** A method of an object with state [S]: it returns or raises, and leaves
    the object in a (possibly changed) state either way. *)
Definition method (S A : Type) : Type := S → outcome A * S.

#[global] Instance method_ret {S} : MRet (method S) := fun A a s => (Return a, s).
#[global] Instance method_bind {S} : MBind (method S) := fun A B k m s =>
  match m s with
  | (Return a, s') => k a s'
  | (Raise e, s') => (Raise e, s')
  end.

(** The built-in classes that derive from [ValueError]. *)
Definition builtin_ValueError_subclasses : list string :=
  ["UnicodeError"; "UnicodeDecodeError"; "UnicodeEncodeError"; "UnicodeTranslateError"].

(** [issubclass(c, ValueError)]: the class itself and the classes that
    derive from it, the built-in ones also when they are given by name. *)
Definition derives_from_ValueError (c : exn_class) : bool :=
  match c with
  | ValueError | ValueErrorSubclass _ => true
  | NamedError name => bool_decide (name ∈ builtin_ValueError_subclasses)
  | NotImplementedError | IndexError | TypeError | EVPError => false
  end.

(** [try: body except ValueError, error: handler(error)]: the clause
    catches the instances of [ValueError] and of its subclasses. *)
Definition try_except_ValueError {A} (body : outcome A)
    (handler : exn → outcome A) : outcome A :=
  match body with
  | Return a => Return a
  | Raise e =>
      if derives_from_ValueError (exn_cls e) then handler e else Raise e
  end.

(** [error[i]] on an exception is [error.args[i]]. *)
Definition exn_getitem (error : exn) (i : nat) : outcome pyval :=
  match exn_args error !! i with
  | Some v => Return v
  | None => Raise (Exn IndexError [PyStr "tuple index out of range"])
  end.

(** ** Built-ins: [len], [str], [repr], ["a" * n], [%] formatting *)

Definition len (s : string) : Z := Z.of_nat (String.length s).

(** [c * n] for a one-character string [c]: empty when [n <= 0]. *)
Fixpoint str_repeat_nat (c : ascii) (n : nat) : string :=
  match n with
  | O => EmptyString
  | S n' => String c (str_repeat_nat c n')
  end.
Definition str_repeat (c : ascii) (n : Z) : string := str_repeat_nat c (Z.to_nat n).

(** [str(v)] *)
Definition py_str (v : pyval) : string :=
  match v with
  | PyNone => "None"
  | PyStr s => s
  end.

Definition squote : ascii := "039"%char.
Definition dquote : ascii := "034"%char.
Definition backslash : ascii := "092"%char.

Fixpoint str_contains (c : ascii) (s : string) : bool :=
  match s with
  | EmptyString => false
  | String a s' => if Ascii.eqb a c then true else str_contains c s'
  end.

Definition hex_digit (n : N) : ascii :=
  ascii_of_N (if (n <? 10)%N then 48 + n else 87 + n)%N.

(** One character of a string [repr]: the quote and the backslash are
    escaped, tab, newline and carriage return are written symbolically,
    other non-printable bytes as [\xNN]. *)
Definition repr_char (quote : ascii) (c : ascii) : string :=
  let n := N_of_ascii c in
  if Ascii.eqb c quote || Ascii.eqb c backslash then String backslash (String c EmptyString)
  else if (n =? 9)%N then String backslash "t"
  else if (n =? 10)%N then String backslash "n"
  else if (n =? 13)%N then String backslash "r"
  else if (n <? 32)%N || (127 <=? n)%N then
    String backslash (String "x" (String (hex_digit (n / 16)) (String (hex_digit (n mod 16)) EmptyString)))
  else String c EmptyString.

Fixpoint repr_chars (quote : ascii) (s : string) : string :=
  match s with
  | EmptyString => EmptyString
  | String c s' => repr_char quote c +:+ repr_chars quote s'
  end.

(** [repr(s)] of a [str]: single quotes, unless the string holds a single
    quote and no double quote. *)
Definition repr_str (s : string) : string :=
  let quote := if str_contains squote s && negb (str_contains dquote s)
               then dquote else squote in
  String quote (repr_chars quote s +:+ String quote EmptyString).

Definition py_repr (v : pyval) : string :=
  match v with
  | PyNone => "None"
  | PyStr s => repr_str s
  end.

(** ** Configuration *)

(** The application configuration dictionary. *)
Abbreviation conf_dict := (gmap string pyval).

(** [conf.get(k)] and [conf.get(k, default)] *)
Definition dict_get (conf : conf_dict) (k : string) : pyval :=
  default PyNone (conf !! k).
Definition dict_get_default (conf : conf_dict) (k : string) (d : pyval) : pyval :=
  default d (conf !! k).

(** ** Collaborators *)

(** The key manager ([swift.common.key_manager]) and the key-store driver
    object it builds. The driver only ever calls [get_driver] and
    [get_key]; both are parameters of the development. A key-store driver
    is a value of type [keystore]; [get_key] returns the key string for a
    key id, or raises. *)
Record KeyManager : Type := {
  keystore : Type;
  km_get_driver : conf_dict → pyval → outcome keystore;
  get_key : keystore → string → outcome string;
}.

(** The cipher object of the library ([M2Crypto.EVP.Cipher]):
    [Cipher(alg, key, iv, op)] builds a context or raises, [update] consumes
    a chunk (changing the context) and returns output or raises, [final]
    returns the last output or raises. *)
Record CipherLibrary : Type := {
  cipher_ctx : Type;
  Cipher : pyval → string → string → Z → outcome cipher_ctx;
  cipher_update : string → method cipher_ctx string;
  cipher_final : method cipher_ctx string;
}.

(** ** The drivers *)

Section Drivers.

Variable km : KeyManager.
Variable lib : CipherLibrary.

(** The attributes every driver has ([CryptoDriver.__init__] and the class
    attribute [key_value]). *)
Record CryptoDriver : Type := {
  conf : conf_dict;
  protocol : pyval;
  keystore_driver : keystore km;
  key_value : string;
}.

(** A driver object: its class, with the attributes of that class. Only
    [M2CryptoDriver] has an [iv]. *)
Inductive Driver : Type :=
  | BaseDriverObj (self : CryptoDriver)
  | FakeDriverObj (self : CryptoDriver)
  | M2CryptoDriverObj (self : CryptoDriver) (iv : string).

Definition attrs (d : Driver) : CryptoDriver :=
  match d with
  | BaseDriverObj b | FakeDriverObj b | M2CryptoDriverObj b _ => b
  end.

Definition iv_of (d : Driver) : option string :=
  match d with
  | M2CryptoDriverObj _ iv => Some iv
  | _ => None
  end.

Definition set_key_value (v : string) (d : Driver) : Driver :=
  let upd b := {| conf := conf b; protocol := protocol b;
                  keystore_driver := keystore_driver b; key_value := v |} in
  match d with
  | BaseDriverObj b => BaseDriverObj (upd b)
  | FakeDriverObj b => FakeDriverObj (upd b)
  | M2CryptoDriverObj b iv => M2CryptoDriverObj (upd b) iv
  end.

(** [CryptoDriver.__init__]; [key_value] is the class attribute, the empty
    string. *)
Definition CryptoDriver_init (cnf : conf_dict) : outcome CryptoDriver :=
  ks ← km_get_driver km cnf (dict_get cnf "crypto_keystore_driver");
  mret {| conf := cnf;
          protocol := dict_get cnf "crypto_protocol";
          keystore_driver := ks;
          key_value := EmptyString |}.

(** [CryptoDriver(conf)]: an object of the base class itself. *)
Definition BaseDriver (cnf : conf_dict) : outcome Driver :=
  b ← CryptoDriver_init cnf; mret (BaseDriverObj b).

(** [FakeDriver.__init__] *)
Definition FakeDriver (cnf : conf_dict) : outcome Driver :=
  b ← CryptoDriver_init cnf; mret (FakeDriverObj b).

(** [self.iv = "3141527182810345"] *)
Definition hardcoded_iv : string := "3141527182810345".

(** [M2CryptoDriver.__init__] *)
Definition M2CryptoDriver (cnf : conf_dict) : outcome Driver :=
  b ← CryptoDriver_init cnf;
  let iv := hardcoded_iv in
  let proto := dict_get_default cnf "crypto_protocol" (PyStr "aes_128_cbc") in
  if decide (proto ≠ PyStr "aes_128_cbc")
  then Raise (Exn NotImplementedError [PyStr "Incorrect protocol"])
  else mret (M2CryptoDriverObj
               {| conf := conf b; protocol := proto;
                  keystore_driver := keystore_driver b;
                  key_value := key_value b |} iv).

(** The message of the [ValueError] that [crypt] and [decrypt] raise: the
    format string has a line continuation, so the next line's indentation
    is part of it. *)
Definition unknown_cipher_message (e0 e1 : pyval) : string :=
  py_repr e0 +:+ ":" +:+ py_repr e1 +:+
  " please select avaliable protocol                         type".

(** The [except ValueError, error] clause of [crypt] and [decrypt]: an
    'unknown cipher' error is raised again with a message; for any other
    [ValueError] the clause ends, and so does the method, returning [None]. *)
Definition except_clause (error : exn) : outcome pyval :=
  e0 ← exn_getitem error 0;
  if decide (e0 = PyStr "unknown cipher") then
    e0' ← exn_getitem error 0;
    e1 ← exn_getitem error 1;
    Raise (Exn ValueError [PyStr (unknown_cipher_message e0' e1)])
  else mret PyNone.

(** The [try] body of [crypt] ([op = 1]) and [decrypt] ([op = 0]). *)
Definition cipher_body (b : CryptoDriver) (iv : string) (op : Z)
    (chunk : string) : outcome pyval :=
  cipher ← Cipher lib (protocol b) (key_value b) iv op;
  let (r1, cipher) := cipher_update lib chunk cipher in
  v ← r1;
  let (r2, cipher) := cipher_final lib cipher in
  f ← r2;
  mret (PyStr (v +:+ f)).

(** [raise NotImplementedError] *)
Definition not_implemented : exn := Exn NotImplementedError [].

(** [crypt], by the class of the object. *)
Definition crypt (chunk : string) : method Driver pyval := fun d =>
  match d with
  | BaseDriverObj _ => (Raise not_implemented, d)
  | FakeDriverObj _ => (Return (PyStr chunk), d)
  | M2CryptoDriverObj b iv =>
      (try_except_ValueError (cipher_body b iv 1 chunk) except_clause, d)
  end.

(** [decrypt], by the class of the object. *)
Definition decrypt (chunk : string) : method Driver pyval := fun d =>
  match d with
  | BaseDriverObj _ => (Raise not_implemented, d)
  | FakeDriverObj _ => (Return (PyStr chunk), d)
  | M2CryptoDriverObj b iv =>
      (try_except_ValueError (cipher_body b iv 0 chunk) except_clause, d)
  end.

(** [CryptoDriver.crypted_len] *)
Definition crypted_len (original_len : Z) : method Driver Z :=
  let res := str_repeat "a" original_len in
  c ← crypt res;
  mret (len (py_str c)).

(** [CryptoDriver.get_key_value]: the method returns [None]. *)
Definition get_key_value (key_id : string) : method Driver pyval := fun d =>
  match get_key km (keystore_driver (attrs d)) key_id with
  | Return v => (Return PyNone, set_key_value v d)
  | Raise e => (Raise e, d)
  end.

End Drivers.

(** ** The cipher object for [aes_128_cbc]

    [M2Crypto.EVP.Cipher] is a library class, a wrapper of OpenSSL's
    [EVP_CipherInit], [EVP_CipherUpdate] and [EVP_CipherFinal]. For the one
    algorithm the driver accepts, it chains 16-byte blocks in CBC mode from
    the initial vector and, padding being on by default, pads the last
    block the PKCS way: [16 - n mod 16] bytes of that value are appended on
    encryption, checked and removed on decryption. The block cipher is a
    parameter here; AES-128 is defined further down. *)

Abbreviation bytes := (list ascii).

Abbreviation block_size := (16%nat).

Definition xor_ascii (a b : ascii) : ascii :=
  match a, b with
  | Ascii a0 a1 a2 a3 a4 a5 a6 a7, Ascii b0 b1 b2 b3 b4 b5 b6 b7 =>
      Ascii (xorb a0 b0) (xorb a1 b1) (xorb a2 b2) (xorb a3 b3)
            (xorb a4 b4) (xorb a5 b5) (xorb a6 b6) (xorb a7 b7)
  end.

Definition xor_bytes (x y : bytes) : bytes := zip_with xor_ascii x y.

(** A block cipher: encryption and decryption of one block under a key. *)
Record BlockCipher : Type := {
  block_encrypt : bytes → bytes → bytes;
  block_decrypt : bytes → bytes → bytes;
}.

(** What makes it a cipher on 16-byte blocks. *)
Record BlockCipherLaws (bc : BlockCipher) : Prop := {
  block_encrypt_length : ∀ key b,
    length b = block_size → length (block_encrypt bc key b) = block_size;
  block_decrypt_length : ∀ key b,
    length b = block_size → length (block_decrypt bc key b) = block_size;
  block_decrypt_encrypt : ∀ key b,
    length b = block_size → block_decrypt bc key (block_encrypt bc key b) = b;
}.

Section EVP.

Variable bc : BlockCipher.

(** The cipher context: direction, key, the chaining block (the initial
    vector at first) and the input not yet processed. *)
Record evp_ctx : Type := {
  ctx_encrypt : bool;
  ctx_key : bytes;
  ctx_chain : bytes;
  ctx_buf : bytes;
}.

(** CBC encryption of the first [n] blocks of [data]: the output and the
    last cipher block. *)
Fixpoint cbc_encrypt (n : nat) (key chain data : bytes) : bytes * bytes :=
  match n with
  | O => ([], chain)
  | S n' =>
      let c := block_encrypt bc key (xor_bytes (take block_size data) chain) in
      let (out, chain') := cbc_encrypt n' key c (drop block_size data) in
      (c ++ out, chain')
  end.

(** CBC decryption of the first [n] blocks of [data]. *)
Fixpoint cbc_decrypt (n : nat) (key chain data : bytes) : bytes * bytes :=
  match n with
  | O => ([], chain)
  | S n' =>
      let c := take block_size data in
      let p := xor_bytes (block_decrypt bc key c) chain in
      let (out, chain') := cbc_decrypt n' key c (drop block_size data) in
      (p ++ out, chain')
  end.

(** The padding of a last block that holds [buf]. *)
Definition pkcs_pad (buf : bytes) : bytes :=
  let n := (block_size - length buf)%nat in
  buf ++ replicate n (ascii_of_nat n).

(** The check of a decrypted last block: its last byte [n] is between 1
    and 16 and the last [n] bytes all are [n]; the rest is the data. *)
Definition pkcs_unpad (b : bytes) : option bytes :=
  let n := nat_of_ascii (default zero (b !! (block_size - 1)%nat)) in
  if decide (n = 0 ∨ block_size < n)%nat then None
  else if decide (drop (block_size - n) b = replicate n (ascii_of_nat n))
  then Some (take (block_size - n) b)
  else None.

(** [Cipher(alg, key, iv, op)]: the algorithm is looked up by name, and a
    name that is not found is a [ValueError('unknown cipher', alg)]; the
    one algorithm that [M2CryptoDriver.__init__] lets through is the one
    modelled. The drivers pass [op = 1] to encrypt and [op = 0] to
    decrypt. The initial vector is the first 16 bytes of [iv]. *)
Definition evp_Cipher (alg : pyval) (key iv : string) (op : Z) : outcome evp_ctx :=
  match alg with
  | PyStr a =>
      if decide (a = "aes_128_cbc") then
        Return {| ctx_encrypt := negb (op =? 0);
                  ctx_key := list_ascii_of_string key;
                  ctx_chain := take block_size (list_ascii_of_string iv);
                  ctx_buf := [] |}
      else Raise (Exn ValueError [PyStr "unknown cipher"; alg])
  | PyNone => Raise (Exn TypeError [PyStr "getattr(): attribute name must be string"])
  end.

(** [update]: all full blocks are processed, except that decryption holds
    the last one back for [final]. *)
Definition evp_update (data : string) : method evp_ctx string := fun ctx =>
  let s := ctx_buf ctx ++ list_ascii_of_string data in
  let n := if ctx_encrypt ctx then (length s / block_size)%nat
           else ((length s - 1) / block_size)%nat in
  let (out, chain) :=
    (if ctx_encrypt ctx then cbc_encrypt else cbc_decrypt)
      n (ctx_key ctx) (ctx_chain ctx) s in
  (Return (string_of_list_ascii out),
   {| ctx_encrypt := ctx_encrypt ctx; ctx_key := ctx_key ctx;
      ctx_chain := chain; ctx_buf := drop (n * block_size) s |}).

Definition evp_error (reason : string) : exn := Exn EVPError [PyStr reason].

(** [final]: encryption pads and encrypts the last block; decryption
    wants exactly one block held back, with a valid padding. *)
Definition evp_final : method evp_ctx string := fun ctx =>
  if ctx_encrypt ctx then
    let c := block_encrypt bc (ctx_key ctx)
               (xor_bytes (pkcs_pad (ctx_buf ctx)) (ctx_chain ctx)) in
    (Return (string_of_list_ascii c), ctx)
  else if decide (length (ctx_buf ctx) ≠ block_size) then
    (Raise (evp_error "wrong final block length"), ctx)
  else
    match pkcs_unpad (xor_bytes (block_decrypt bc (ctx_key ctx) (ctx_buf ctx))
                                (ctx_chain ctx)) with
    | Some p => (Return (string_of_list_ascii p), ctx)
    | None => (Raise (evp_error "bad decrypt"), ctx)
    end.

Definition evp : CipherLibrary := {|
  cipher_ctx := evp_ctx;
  Cipher := evp_Cipher;
  cipher_update := evp_update;
  cipher_final := evp_final;
|}.

(** Encryption of a whole message: the CBC chain over its full blocks,
    then the padded last block. *)
Definition cbc_pkcs_encrypt (key iv p : bytes) : bytes :=
  let n := (length p / block_size)%nat in
  let (out, chain) := cbc_encrypt n key (take block_size iv) p in
  out ++ block_encrypt bc key (xor_bytes (pkcs_pad (drop (n * block_size) p)) chain).

(** Decryption of a whole message: all blocks but the last, then the last
    block with its padding checked and removed. *)
Definition cbc_pkcs_decrypt (key iv c : bytes) : outcome bytes :=
  let n := ((length c - 1) / block_size)%nat in
  let (out, chain) := cbc_decrypt n key (take block_size iv) c in
  let buf := drop (n * block_size) c in
  if decide (length buf ≠ block_size) then Raise (evp_error "wrong final block length")
  else match pkcs_unpad (xor_bytes (block_decrypt bc key buf) chain) with
       | Some p => Return (out ++ p)
       | None => Raise (evp_error "bad decrypt")
       end.

End EVP.

(** ** The block cipher: AES-128 (FIPS 197) *)

(** Multiplication by [x] in GF(2^8), modulo [x^8 + x^4 + x^3 + x + 1]. *)
Definition xtime (a : ascii) : ascii :=
  match a with
  | Ascii a0 a1 a2 a3 a4 a5 a6 a7 =>
      Ascii a7 (xorb a0 a7) a1 (xorb a2 a7) (xorb a3 a7) a4 a5 a6
  end.

(** Multiplication in GF(2^8). *)
Definition gf_mul (a b : ascii) : ascii :=
  match b with
  | Ascii b0 b1 b2 b3 b4 b5 b6 b7 =>
      let term (bit : bool) (x : ascii) := if bit then x else zero in
      let a1 := xtime a in let a2 := xtime a1 in let a3 := xtime a2 in
      let a4 := xtime a3 in let a5 := xtime a4 in let a6 := xtime a5 in
      let a7 := xtime a6 in
      xor_ascii (term b0 a) (xor_ascii (term b1 a1) (xor_ascii (term b2 a2)
        (xor_ascii (term b3 a3) (xor_ascii (term b4 a4) (xor_ascii (term b5 a5)
          (xor_ascii (term b6 a6) (term b7 a7)))))))
  end.

(** The inverse in GF(2^8), [a^254]; zero for zero. *)
Definition gf_inv (a : ascii) : ascii :=
  let a2 := gf_mul a a in let a4 := gf_mul a2 a2 in let a8 := gf_mul a4 a4 in
  let a16 := gf_mul a8 a8 in let a32 := gf_mul a16 a16 in
  let a64 := gf_mul a32 a32 in let a128 := gf_mul a64 a64 in
  gf_mul a2 (gf_mul a4 (gf_mul a8 (gf_mul a16 (gf_mul a32 (gf_mul a64 a128))))).

(** The S-box: the inverse, then the affine map with constant [63]. *)
Definition sbox (a : ascii) : ascii :=
  match gf_inv a with
  | Ascii a0 a1 a2 a3 a4 a5 a6 a7 =>
      let x (p q r s t : bool) := xorb p (xorb q (xorb r (xorb s t))) in
      Ascii (negb (x a0 a4 a5 a6 a7)) (negb (x a1 a5 a6 a7 a0))
            (x a2 a6 a7 a0 a1) (x a3 a7 a0 a1 a2) (x a4 a0 a1 a2 a3)
            (negb (x a5 a1 a2 a3 a4)) (negb (x a6 a2 a3 a4 a5))
            (x a7 a3 a4 a5 a6)
  end.

(** The inverse S-box: the inverse affine map, constant [05], then the
    inverse. *)
Definition inv_sbox (b : ascii) : ascii :=
  match b with
  | Ascii b0 b1 b2 b3 b4 b5 b6 b7 =>
      let x (p q r : bool) := xorb p (xorb q r) in
      gf_inv (Ascii (negb (x b2 b5 b7)) (x b3 b6 b0) (negb (x b4 b7 b1))
                    (x b5 b0 b2) (x b6 b1 b3) (x b7 b2 b4) (x b0 b3 b5)
                    (x b1 b4 b6))
  end.

Definition sub_bytes (s : bytes) : bytes := map sbox s.
Definition inv_sub_bytes (s : bytes) : bytes := map inv_sbox s.

(** The state is kept in input order, column after column: row [r] of
    column [c] is byte [r + 4c]. *)
Definition pick (idx : list nat) (s : bytes) : bytes :=
  map (fun i => nth i s zero) idx.

Definition shift_rows : bytes → bytes :=
  pick [0; 5; 10; 15; 4; 9; 14; 3; 8; 13; 2; 7; 12; 1; 6; 11]%nat.
Definition inv_shift_rows : bytes → bytes :=
  pick [0; 13; 10; 7; 4; 1; 14; 11; 8; 5; 2; 15; 12; 9; 6; 3]%nat.

Definition x3 (a : ascii) : ascii := xor_ascii (xtime a) a.
Definition x9 (a : ascii) : ascii := xor_ascii (xtime (xtime (xtime a))) a.
Definition x11 (a : ascii) : ascii :=
  xor_ascii (xtime (xtime (xtime a))) (xor_ascii (xtime a) a).
Definition x13 (a : ascii) : ascii :=
  xor_ascii (xtime (xtime (xtime a))) (xor_ascii (xtime (xtime a)) a).
Definition x14 (a : ascii) : ascii :=
  xor_ascii (xtime (xtime (xtime a))) (xor_ascii (xtime (xtime a)) (xtime a)).

Definition xor4 (a b c d : ascii) : ascii :=
  xor_ascii a (xor_ascii b (xor_ascii c d)).

Fixpoint mix_columns (s : bytes) : bytes :=
  match s with
  | a0 :: a1 :: a2 :: a3 :: s' =>
      xor4 (xtime a0) (x3 a1) a2 a3 :: xor4 a0 (xtime a1) (x3 a2) a3 ::
      xor4 a0 a1 (xtime a2) (x3 a3) :: xor4 (x3 a0) a1 a2 (xtime a3) ::
      mix_columns s'
  | _ => []
  end.

Fixpoint inv_mix_columns (s : bytes) : bytes :=
  match s with
  | a0 :: a1 :: a2 :: a3 :: s' =>
      xor4 (x14 a0) (x11 a1) (x13 a2) (x9 a3) ::
      xor4 (x9 a0) (x14 a1) (x11 a2) (x13 a3) ::
      xor4 (x13 a0) (x9 a1) (x14 a2) (x11 a3) ::
      xor4 (x11 a0) (x13 a1) (x9 a2) (x14 a3) ::
      inv_mix_columns s'
  | _ => []
  end.

(** The key schedule: the next round key from a round key and the round
    constant. *)
Definition next_round_key (rk : bytes) (rc : ascii) : bytes :=
  let w0 := take 4 rk in let w1 := take 4 (drop 4 rk) in
  let w2 := take 4 (drop 8 rk) in let w3 := take 4 (drop 12 rk) in
  let t := xor_bytes (map sbox (pick [1; 2; 3; 0]%nat w3)) [rc; zero; zero; zero] in
  let w0' := xor_bytes w0 t in
  let w1' := xor_bytes w1 w0' in
  let w2' := xor_bytes w2 w1' in
  let w3' := xor_bytes w3 w2' in
  w0' ++ w1' ++ w2' ++ w3'.

Fixpoint expand_key (n : nat) (rk : bytes) (rc : ascii) : list bytes :=
  match n with
  | O => []
  | S n' => let rk' := next_round_key rk rc in rk' :: expand_key n' rk' (xtime rc)
  end.

(** The rounds of the cipher, one per round key; the last one has no
    [mix_columns]. *)
Fixpoint aes_rounds (rks : list bytes) (s : bytes) : bytes :=
  match rks with
  | [] => s
  | rk :: rks' =>
      let s' := shift_rows (sub_bytes s) in
      match rks' with
      | [] => xor_bytes s' rk
      | _ => aes_rounds rks' (xor_bytes (mix_columns s') rk)
      end
  end.

Fixpoint aes_inv_rounds (rks : list bytes) (s : bytes) : bytes :=
  match rks with
  | [] => s
  | rk :: rks' =>
      let s' :=
        match rks' with
        | [] => xor_bytes s rk
        | _ => inv_mix_columns (xor_bytes (aes_inv_rounds rks' s) rk)
        end in
      inv_sub_bytes (inv_shift_rows s')
  end.

(** The first 16 bytes of the key string are the key: [EVP_CipherInit]
    reads that many. For a shorter string the model reads zero bytes
    after its end. *)
Definition aes_key (key : bytes) : bytes := take block_size (key ++ replicate block_size zero).

Definition aes_encrypt (key b : bytes) : bytes :=
  let rk0 := aes_key key in
  aes_rounds (expand_key 10 rk0 one) (xor_bytes b rk0).

Definition aes_decrypt (key b : bytes) : bytes :=
  let rk0 := aes_key key in
  xor_bytes (aes_inv_rounds (expand_key 10 rk0 one) b) rk0.

Definition aes128 : BlockCipher :=
  {| block_encrypt := aes_encrypt; block_decrypt := aes_decrypt |}.

(** Bytes written as numbers. *)
Definition of_hex (l : list N) : bytes := map ascii_of_N l.

(** ** Objects to run the drivers on *)

(** A key store to run the drivers on: a dictionary of keys. *)
Definition dict_key_manager (keys : gmap string string) : KeyManager := {|
  keystore := gmap string string;
  km_get_driver := fun _ _ => Return keys;
  get_key := fun ks key_id =>
    match ks !! key_id with
    | Some v => Return v
    | None => Raise (Exn (NamedError "KeyError") [PyStr key_id])
    end;
|}.

(** ** States and runs of a driver *)

Section Runs.

Variable km : KeyManager.

(** What [M2CryptoDriver.__init__] establishes and no method changes: the
    object is an [M2CryptoDriver], its [iv] is the hardcoded one, its
    [protocol] the accepted one. *)
Definition M2_invariant (d : Driver km) : Prop :=
  match d with
  | M2CryptoDriverObj _ b iv => iv = hardcoded_iv ∧ protocol km b = PyStr "aes_128_cbc"
  | _ => False
  end.

(** A sequence of [get_key_value] calls, whatever each one returns or
    raises. *)
Definition bind_keys (ids : list string) (d : Driver km) : Driver km :=
  foldl (fun d key_id => (get_key_value km key_id d).2) d ids.

Variable lib : CipherLibrary.

(** The three calls on the cipher object all return: [update] gives [v],
    [final] gives [f]. *)
Definition cipher_succeeds (alg : pyval) (key iv : string) (op : Z)
    (chunk v f : string) : Prop :=
  ∃ ctx, Cipher lib alg key iv op = Return ctx ∧
    (cipher_update lib chunk ctx).1 = Return v ∧
    (cipher_final lib (cipher_update lib chunk ctx).2).1 = Return f.

(** One of the three calls on the cipher object raises [e] (and the ones
    before it return). *)
Definition cipher_fails (alg : pyval) (key iv : string) (op : Z)
    (chunk : string) (e : exn) : Prop :=
  Cipher lib alg key iv op = Raise e ∨
  ∃ ctx, Cipher lib alg key iv op = Return ctx ∧
    ((cipher_update lib chunk ctx).1 = Raise e ∨
     ∃ v, (cipher_update lib chunk ctx).1 = Return v ∧
          (cipher_final lib (cipher_update lib chunk ctx).2).1 = Raise e).

End Runs.

(** [r] is an exception of class [c]. *)
Definition raises {A} (r : outcome A) (c : exn_class) : Prop :=
  ∃ args, r = Raise (Exn c args).

(** The last 16 bytes of a ciphertext. *)
Definition last_block (c : string) : bytes :=
  let l := list_ascii_of_string c in drop (length l - block_size) l.

(** A key store with two keys, and the drivers over it. *)
Definition example_keys : gmap string string :=
  <["k1" := "0123456789abcdef"]> (<["k2" := "0123456789abcdeX"]> ∅).
Definition example_km : KeyManager := dict_key_manager example_keys.
Definition example_driver : Driver example_km :=
  M2CryptoDriverObj example_km
    (Build_CryptoDriver example_km ∅ (PyStr "aes_128_cbc") example_keys EmptyString)
    hardcoded_iv.

(** ** The driver factory and sequences of calls *)

Section Factory.

Variable km : KeyManager.

(** A driver class, as [get_driver] uses it: what calling it on the
    configuration does. *)
Definition driver_class : Type := conf_dict → outcome (Driver km).

(** [import_class] of [swift.common.utils] resolves an import path to a
    class, or raises; it is a parameter. *)
Variable import_class : pyval → outcome driver_class.

(** [get_driver(conf, driver)] *)
Definition get_driver (cnf : conf_dict) (driver : pyval) : outcome (Driver km) :=
  driver_class ← import_class driver;
  driver_class cnf.

Variable lib : CipherLibrary.

(** A call of one of the four methods of a driver. *)
Inductive call : Type :=
  | Call_crypt (chunk : string)
  | Call_decrypt (chunk : string)
  | Call_crypted_len (original_len : Z)
  | Call_get_key_value (key_id : string).

(** The driver after a call, whatever the call returned or raised. *)
Definition do_call (c : call) (d : Driver km) : Driver km :=
  match c with
  | Call_crypt chunk => (crypt km lib chunk d).2
  | Call_decrypt chunk => (decrypt km lib chunk d).2
  | Call_crypted_len n => (crypted_len km lib n d).2
  | Call_get_key_value key_id => (get_key_value km key_id d).2
  end.

Definition run_calls (cs : list call) (d : Driver km) : Driver km :=
  foldl (fun d c => do_call c d) d cs.

(** The key that the last [get_key_value] call whose lookup returned has
    fetched from the key store [ks]; [current] when there is none. *)
Fixpoint bound_key (ks : keystore km) (cs : list call) (current : string) : string :=
  match cs with
  | [] => current
  | Call_get_key_value key_id :: cs' =>
      match get_key km ks key_id with
      | Return v => bound_key ks cs' v
      | Raise _ => bound_key ks cs' current
      end
  | _ :: cs' => bound_key ks cs' current
  end.

End Factory.

(** A cipher library whose [Cipher] raises a given error: a stand-in to
    run the [except] clause of the drivers on. *)
Definition raising_cipher (e : exn) : CipherLibrary := {|
  cipher_ctx := unit;
  Cipher := fun _ _ _ _ => Raise e;
  cipher_update := fun _ ctx => (Return EmptyString, ctx);
  cipher_final := fun ctx => (Return EmptyString, ctx);
|}.

(** A key manager that builds its key-store driver only when the
    configuration names one ([crypto_keystore_driver]), and the classes of
    this module by import path: stand-ins for [key_manager.get_driver] and
    [import_class]. *)
Definition strict_key_manager (keys : gmap string string) : KeyManager := {|
  keystore := gmap string string;
  km_get_driver := fun _ driver =>
    match driver with
    | PyStr _ => Return keys
    | PyNone => Raise (Exn (NamedError "ImportError") [PyStr "no key store driver"])
    end;
  get_key := fun ks key_id =>
    match ks !! key_id with
    | Some v => Return v
    | None => Raise (Exn (NamedError "KeyError") [PyStr key_id])
    end;
|}.

Definition module_import_class (km : KeyManager) (path : pyval)
    : outcome (driver_class km) :=
  if decide (path = PyStr "swift.obj.encryptor.CryptoDriver") then Return (BaseDriver km)
  else if decide (path = PyStr "swift.obj.encryptor.FakeDriver") then Return (FakeDriver km)
  else if decide (path = PyStr "swift.obj.encryptor.M2CryptoDriver")
  then Return (M2CryptoDriver km)
  else Raise (Exn (NamedError "ImportError") [path]).

(** ** Strings and byte lists *)

Lemma length_list_ascii_of_string (s : string) :
  length (list_ascii_of_string s) = String.length s.
Proof. induction s as [|c s IH]; simpl; [reflexivity | now rewrite IH]. Qed.

Lemma length_string_of_list_ascii (l : bytes) :
  String.length (string_of_list_ascii l) = length l.
Proof. induction l as [|c l IH]; simpl; [reflexivity | now rewrite IH]. Qed.

Lemma string_of_list_ascii_app (l1 l2 : bytes) :
  string_of_list_ascii (l1 ++ l2) = string_of_list_ascii l1 +:+ string_of_list_ascii l2.
Proof. induction l1 as [|c l1 IH]; simpl; [reflexivity | now rewrite IH]. Qed.

Lemma len_string_of_list_ascii (l : bytes) :
  len (string_of_list_ascii l) = Z.of_nat (length l).
Proof. unfold len. now rewrite length_string_of_list_ascii. Qed.

Lemma length_str_repeat_nat c n : String.length (str_repeat_nat c n) = n.
Proof. induction n as [|n IH]; simpl; [reflexivity | now rewrite IH]. Qed.

Lemma len_str_repeat c n : len (str_repeat c n) = Z.max 0 n.
Proof. unfold len, str_repeat. rewrite length_str_repeat_nat. lia. Qed.

(** ** Xor, padding and chaining *)

Lemma xor_ascii_cancel a b : xor_ascii (xor_ascii a b) b = a.
Proof.
  destruct a as [a0 a1 a2 a3 a4 a5 a6 a7], b as [b0 b1 b2 b3 b4 b5 b6 b7].
  simpl. now rewrite !xorb_assoc, !xorb_nilpotent, !xorb_false_r.
Qed.

Lemma length_xor_bytes (x y : bytes) :
  length x = length y → length (xor_bytes x y) = length x.
Proof. intros H. unfold xor_bytes. now apply length_zip_with_l_eq. Qed.

Lemma xor_bytes_cancel (x y : bytes) :
  length x = length y → xor_bytes (xor_bytes x y) y = x.
Proof.
  revert y. induction x as [|a x IH]; intros [|b y] H; simpl in *; try done.
  rewrite xor_ascii_cancel. f_equal. apply IH. lia.
Qed.

Lemma length_pkcs_pad (buf : bytes) :
  (length buf ≤ block_size)%nat → length (pkcs_pad buf) = block_size.
Proof. intros H. unfold pkcs_pad. rewrite length_app, length_replicate. lia. Qed.

Lemma pkcs_unpad_pad (buf : bytes) :
  (length buf < block_size)%nat → pkcs_unpad (pkcs_pad buf) = Some buf.
Proof.
  intros H. unfold pkcs_unpad, pkcs_pad.
  set (n := (16 - length buf)%nat).
  assert (Hn : (1 ≤ n ≤ 16)%nat) by (subst n; lia).
  assert (Hl : (buf ++ replicate n (ascii_of_nat n)) !! (16 - 1)%nat = Some (ascii_of_nat n)).
  { rewrite lookup_app_r by lia. apply lookup_replicate. split; [done | lia]. }
  rewrite Hl. simpl default.
  rewrite nat_ascii_embedding by lia.
  rewrite decide_False by lia.
  assert (Hb : (16 - n)%nat = length buf) by lia. rewrite Hb.
  rewrite drop_app_length, take_app_length.
  now rewrite decide_True.
Qed.

Section EVP_facts.

Variable bc : BlockCipher.
Hypothesis bc_laws : BlockCipherLaws bc.

Lemma cbc_encrypt_length n key chain data :
  length chain = block_size → (n * block_size ≤ length data)%nat →
  length (cbc_encrypt bc n key chain data).1 = (n * block_size)%nat ∧
  length (cbc_encrypt bc n key chain data).2 = block_size.
Proof.
  revert chain data. induction n as [|n IH]; intros chain data Hc Hd;
    cbn [cbc_encrypt].
  - split; [reflexivity | exact Hc].
  - set (c := block_encrypt bc key (xor_bytes (take block_size data) chain)).
    assert (Hlt : length (take block_size data) = block_size).
    { rewrite length_take. lia. }
    assert (Hlc : length c = block_size).
    { apply (block_encrypt_length bc bc_laws). rewrite length_xor_bytes; lia. }
    destruct (IH c (drop block_size data) Hlc) as [H1 H2].
    { rewrite length_drop. lia. }
    destruct (cbc_encrypt bc n key c (drop block_size data)) as [out ch].
    cbn [fst snd] in *. split; [|exact H2]. rewrite length_app. lia.
Qed.

Lemma cbc_decrypt_encrypt n key chain data rest :
  length chain = block_size → (n * block_size ≤ length data)%nat →
  cbc_decrypt bc n key chain ((cbc_encrypt bc n key chain data).1 ++ rest)
  = (take (n * block_size) data, (cbc_encrypt bc n key chain data).2).
Proof.
  revert chain data. induction n as [|n IH]; intros chain data Hc Hd.
  - reflexivity.
  - cbn [cbc_encrypt].
    set (c := block_encrypt bc key (xor_bytes (take block_size data) chain)).
    assert (Hlt : length (take block_size data) = block_size).
    { rewrite length_take. lia. }
    assert (Hlx : length (xor_bytes (take block_size data) chain) = block_size).
    { rewrite length_xor_bytes; lia. }
    assert (Hlc : length c = block_size)
      by (apply (block_encrypt_length bc bc_laws), Hlx).
    assert (Hd' : (n * block_size ≤ length (drop block_size data))%nat).
    { rewrite length_drop. lia. }
    specialize (IH c (drop block_size data) Hlc Hd').
    destruct (cbc_encrypt bc n key c (drop block_size data)) as [out ch].
    cbn [fst snd] in *. cbn [cbc_decrypt].
    rewrite <- app_assoc.
    rewrite (take_app_length' c (out ++ rest)) by (symmetry; exact Hlc).
    rewrite (drop_app_length' c (out ++ rest)) by (symmetry; exact Hlc).
    rewrite IH. unfold c at 1.
    rewrite (block_decrypt_encrypt bc bc_laws) by exact Hlx.
    rewrite xor_bytes_cancel by lia.
    rewrite take_take_drop. reflexivity.
Qed.

End EVP_facts.

(** ** What one [update] followed by [final] computes *)

Section EVP_whole.

Variable bc : BlockCipher.

Variable km : KeyManager.

Lemma cipher_body_encrypt (b : CryptoDriver km) (iv chunk : string) :
  protocol km b = PyStr "aes_128_cbc" →
  cipher_body km (evp bc) b iv 1 chunk =
  Return (PyStr (string_of_list_ascii
    (cbc_pkcs_encrypt bc (list_ascii_of_string (key_value km b))
       (list_ascii_of_string iv) (list_ascii_of_string chunk)))).
Proof.
  intros Hp. unfold cipher_body, cbc_pkcs_encrypt. rewrite Hp.
  cbn [Cipher evp evp_Cipher cipher_update cipher_final].
  rewrite decide_True by reflexivity.
  cbn [mbind outcome_bind]. unfold evp_update, evp_final.
  cbn [ctx_encrypt ctx_key ctx_chain ctx_buf Z.eqb negb app].
  destruct (cbc_encrypt bc _ _ _ _) as [out chain].
  cbn [ctx_encrypt ctx_key ctx_chain ctx_buf mbind outcome_bind mret outcome_ret].
  now rewrite string_of_list_ascii_app.
Qed.

Lemma cipher_body_decrypt (b : CryptoDriver km) (iv chunk : string) :
  protocol km b = PyStr "aes_128_cbc" →
  cipher_body km (evp bc) b iv 0 chunk =
  match cbc_pkcs_decrypt bc (list_ascii_of_string (key_value km b))
          (list_ascii_of_string iv) (list_ascii_of_string chunk) with
  | Return p => Return (PyStr (string_of_list_ascii p))
  | Raise e => Raise e
  end.
Proof.
  intros Hp. unfold cipher_body, cbc_pkcs_decrypt. rewrite Hp.
  cbn [Cipher evp evp_Cipher cipher_update cipher_final].
  rewrite decide_True by reflexivity.
  cbn [mbind outcome_bind]. unfold evp_update, evp_final.
  cbn [ctx_encrypt ctx_key ctx_chain ctx_buf Z.eqb negb app].
  destruct (cbc_decrypt bc _ _ _ _) as [out chain].
  cbn [ctx_encrypt ctx_key ctx_chain ctx_buf mbind outcome_bind mret outcome_ret].
  destruct (decide _) as [|_]; [reflexivity|].
  destruct (pkcs_unpad _) as [p|]; [|reflexivity].
  cbn [mbind outcome_bind mret outcome_ret].
  now rewrite string_of_list_ascii_app.
Qed.

Hypothesis bc_laws : BlockCipherLaws bc.

Lemma length_cbc_pkcs_encrypt key iv p :
  length iv = block_size →
  length (cbc_pkcs_encrypt bc key iv p) = ((length p / block_size + 1) * block_size)%nat.
Proof.
  intros Hiv. unfold cbc_pkcs_encrypt.
  set (n := (length p / block_size)%nat).
  assert (Hn : (n * block_size ≤ length p)%nat).
  { subst n. pose proof (Nat.Div0.mul_div_le (length p) block_size). lia. }
  assert (Hr : (length p - n * block_size < block_size)%nat).
  { subst n. pose proof (Nat.div_mod_eq (length p) block_size).
    pose proof (Nat.mod_upper_bound (length p) block_size). lia. }
  destruct (cbc_encrypt_length bc bc_laws n key (take block_size iv) p) as [H1 H2];
    [rewrite length_take; lia | exact Hn |].
  destruct (cbc_encrypt bc n key (take block_size iv) p) as [out chain].
  cbn [fst snd] in *. rewrite length_app, H1.
  rewrite (block_encrypt_length bc bc_laws); [lia|].
  rewrite length_xor_bytes; rewrite length_pkcs_pad; rewrite ?length_drop; lia.
Qed.

Lemma cbc_pkcs_decrypt_encrypt key iv p :
  length iv = block_size →
  cbc_pkcs_decrypt bc key iv (cbc_pkcs_encrypt bc key iv p) = Return p.
Proof.
  intros Hiv. unfold cbc_pkcs_decrypt.
  rewrite length_cbc_pkcs_encrypt by exact Hiv.
  unfold cbc_pkcs_encrypt.
  set (n := (length p / block_size)%nat).
  assert (Hn : (n * block_size ≤ length p)%nat).
  { subst n. pose proof (Nat.Div0.mul_div_le (length p) block_size). lia. }
  assert (Hr : (length p - n * block_size < block_size)%nat).
  { subst n. pose proof (Nat.div_mod_eq (length p) block_size).
    pose proof (Nat.mod_upper_bound (length p) block_size). lia. }
  assert (Hq : (((n + 1) * block_size - 1) / block_size = n)%nat).
  { symmetry. apply (Nat.div_unique _ _ _ 15); lia. }
  rewrite Hq.
  assert (Hiv' : length (take block_size iv) = block_size)
    by (rewrite length_take; lia).
  pose proof (cbc_decrypt_encrypt bc bc_laws n key (take block_size iv) p) as Hd.
  destruct (cbc_encrypt_length bc bc_laws n key (take block_size iv) p Hiv' Hn)
    as [H1 H2].
  destruct (cbc_encrypt bc n key (take block_size iv) p) as [out chain].
  cbn [fst snd] in *. rewrite Hd by assumption.
  rewrite drop_app_length' by (symmetry; exact H1).
  assert (Hlp : length (pkcs_pad (drop (n * block_size) p)) = block_size).
  { apply length_pkcs_pad. rewrite length_drop. lia. }
  assert (Hlx : length (xor_bytes (pkcs_pad (drop (n * block_size) p)) chain) = block_size).
  { rewrite length_xor_bytes; lia. }
  rewrite decide_False
    by (intros H; apply H; now apply (block_encrypt_length bc bc_laws)).
  rewrite (block_decrypt_encrypt bc bc_laws) by exact Hlx.
  rewrite xor_bytes_cancel by lia.
  rewrite pkcs_unpad_pad by (rewrite length_drop; lia).
  now rewrite take_drop.
Qed.

End EVP_whole.

Lemma len_cbc_pkcs_encrypt (bc : BlockCipher) key iv p :
  BlockCipherLaws bc → length iv = block_size →
  len (string_of_list_ascii (cbc_pkcs_encrypt bc key iv (list_ascii_of_string p)))
  = 16 * (len p / 16 + 1).
Proof.
  intros Hbc Hiv. rewrite len_string_of_list_ascii.
  rewrite (length_cbc_pkcs_encrypt bc Hbc) by exact Hiv.
  rewrite length_list_ascii_of_string. unfold len.
  rewrite Nat2Z.inj_mul, Nat2Z.inj_add, Nat2Z.inj_div. simpl Z.of_nat. lia.
Qed.

Lemma cbc_pkcs_decrypt_raises (bc : BlockCipher) key iv c e :
  cbc_pkcs_decrypt bc key iv c = Raise e → exn_cls e = EVPError.
Proof.
  unfold cbc_pkcs_decrypt. destruct (cbc_decrypt bc _ _ _ _) as [out chain].
  destruct (decide _); [now intros [= <-]|].
  destruct (pkcs_unpad _); [discriminate | now intros [= <-]].
Qed.

(** ** Decryption under another key *)

Lemma xor_bytes_inj (x y z : bytes) :
  length x = length z → length y = length z →
  xor_bytes x z = xor_bytes y z → x = y.
Proof.
  intros Hx Hy H. rewrite <- (xor_bytes_cancel x z Hx), H.
  now apply xor_bytes_cancel.
Qed.

Lemma pkcs_unpad_Some (b q : bytes) :
  length b = block_size → pkcs_unpad b = Some q →
  b = pkcs_pad q ∧ (length q < block_size)%nat.
Proof.
  intros Hb. unfold pkcs_unpad, pkcs_pad.
  set (n := nat_of_ascii (default zero (b !! (16 - 1)%nat))).
  destruct (decide (n = 0 ∨ 16 < n)%nat) as [|Hn]; [discriminate|].
  destruct (decide _) as [Hd|]; [|discriminate]. intros [= <-].
  rewrite length_take, Hb.
  replace (16 - (16 - n) `min` 16)%nat with n by lia.
  rewrite <- Hd, take_drop. split; [reflexivity | lia].
Qed.

Section Other_key.

Variable bc : BlockCipher.
Hypothesis bc_laws : BlockCipherLaws bc.

Lemma cbc_decrypt_chain n key key' chain data :
  (cbc_decrypt bc n key chain data).2 = (cbc_decrypt bc n key' chain data).2.
Proof.
  revert chain data. induction n as [|n IH]; intros chain data; [reflexivity|].
  cbn [cbc_decrypt]. specialize (IH (take block_size data) (drop block_size data)).
  destruct (cbc_decrypt bc n key _ _), (cbc_decrypt bc n key' _ _). exact IH.
Qed.

Lemma cbc_decrypt_length n key chain data :
  length chain = block_size → (n * block_size ≤ length data)%nat →
  length (cbc_decrypt bc n key chain data).1 = (n * block_size)%nat.
Proof.
  revert chain data. induction n as [|n IH]; intros chain data Hc Hd; [reflexivity|].
  cbn [cbc_decrypt].
  assert (Ht : length (take block_size data) = block_size)
    by (rewrite length_take; lia).
  specialize (IH (take block_size data) (drop block_size data) Ht).
  rewrite length_drop in IH.
  destruct (cbc_decrypt bc n key _ _) as [out ch]. cbn [fst] in *.
  rewrite length_app, length_xor_bytes;
    rewrite (block_decrypt_length bc bc_laws) by exact Ht; lia.
Qed.

Lemma cbc_pkcs_decrypt_other_key key1 key2 iv p :
  length iv = block_size →
  let c := cbc_pkcs_encrypt bc key1 iv p in
  let last := drop (length c - block_size) c in
  block_decrypt bc key2 last ≠ block_decrypt bc key1 last →
  cbc_pkcs_decrypt bc key2 iv c ≠ Return p ∧
  (cbc_pkcs_decrypt bc key2 iv c = Raise (evp_error "bad decrypt") ∨
   ∃ p', cbc_pkcs_decrypt bc key2 iv c = Return p').
Proof.
  intros Hiv c last. subst last.
  assert (Hlc : length c = ((length p / block_size + 1) * block_size)%nat)
    by (apply (length_cbc_pkcs_encrypt bc bc_laws), Hiv).
  unfold cbc_pkcs_decrypt. rewrite Hlc. subst c. unfold cbc_pkcs_encrypt in *.
  set (n := (length p / block_size)%nat) in *.
  assert (Hn : (n * block_size ≤ length p)%nat).
  { subst n. pose proof (Nat.Div0.mul_div_le (length p) block_size). lia. }
  assert (Hr : (length p - n * block_size < block_size)%nat).
  { subst n. pose proof (Nat.div_mod_eq (length p) block_size).
    pose proof (Nat.mod_upper_bound (length p) block_size). lia. }
  assert (Hq : (((n + 1) * block_size - 1) / block_size = n)%nat).
  { symmetry. apply (Nat.div_unique _ _ _ 15); lia. }
  rewrite Hq.
  assert (Hiv' : length (take block_size iv) = block_size)
    by (rewrite length_take; lia).
  pose proof (cbc_decrypt_encrypt bc bc_laws n key1 (take block_size iv) p) as Hd1.
  destruct (cbc_encrypt_length bc bc_laws n key1 (take block_size iv) p Hiv' Hn)
    as [H1 H2].
  destruct (cbc_encrypt bc n key1 (take block_size iv) p) as [out chain].
  cbn [fst snd] in *.
  set (rest := drop (n * block_size) p) in *.
  set (last := block_encrypt bc key1 (xor_bytes (pkcs_pad rest) chain)) in *.
  assert (Hlp : length (pkcs_pad rest) = block_size).
  { apply length_pkcs_pad. subst rest. rewrite length_drop. lia. }
  assert (Hlx : length (xor_bytes (pkcs_pad rest) chain) = block_size)
    by (rewrite length_xor_bytes; lia).
  assert (Hll : length last = block_size)
    by (apply (block_encrypt_length bc bc_laws), Hlx).
  replace ((n + 1) * block_size - block_size)%nat with (length out) by lia.
  rewrite drop_app_length.
  pose proof (cbc_decrypt_chain n key2 key1 (take block_size iv) (out ++ last)) as Hch.
  pose proof (cbc_decrypt_length n key2 (take block_size iv) (out ++ last) Hiv') as Hlo.
  rewrite (Hd1 last Hiv' Hn) in Hch. cbn [snd] in Hch.
  destruct (cbc_decrypt bc n key2 (take block_size iv) (out ++ last)) as [out2 chain2].
  cbn [fst snd] in *. subst chain2.
  rewrite length_app in Hlo. specialize (Hlo ltac:(lia)).
  rewrite drop_app_length' by (symmetry; exact H1).
  rewrite decide_False by (intros H; now apply H).
  intros Hne.
  destruct (pkcs_unpad _) as [q|] eqn:Hu.
  - split; [|right; now eexists].
    intros [= Hp]. apply Hne.
    apply pkcs_unpad_Some in Hu as [Hu _].
    2:{ rewrite length_xor_bytes; rewrite (block_decrypt_length bc bc_laws); lia. }
    assert (Hq' : q = rest).
    { subst rest. rewrite <- Hp, drop_app_length'; [reflexivity | lia]. }
    subst q.
    apply (xor_bytes_inj _ _ chain);
      rewrite ?(block_decrypt_length bc bc_laws) by exact Hll; try lia.
    rewrite Hu. unfold last.
    rewrite (block_decrypt_encrypt bc bc_laws) by exact Hlx.
    symmetry. apply xor_bytes_cancel. lia.
  - split; [discriminate | now left].
Qed.

End Other_key.

(** ** AES-128 is a block cipher *)

Lemma inv_sbox_sbox a : inv_sbox (sbox a) = a.
Proof.
  destruct a as [[] [] [] [] [] [] [] []]; vm_compute; reflexivity.
Qed.

Lemma inv_sub_bytes_sub_bytes s : inv_sub_bytes (sub_bytes s) = s.
Proof.
  unfold inv_sub_bytes, sub_bytes. rewrite map_map.
  induction s as [|a s IH]; simpl; [reflexivity | now rewrite inv_sbox_sbox, IH].
Qed.

Ltac list16 s H :=
  do 16 (destruct s as [|? s]; [discriminate H|]);
  destruct s; [|discriminate H].

Lemma inv_shift_rows_shift_rows s :
  length s = block_size → inv_shift_rows (shift_rows s) = s.
Proof. intros H. list16 s H. reflexivity. Qed.

Lemma inv_mix_column a0 a1 a2 a3 :
  inv_mix_columns (mix_columns [a0; a1; a2; a3]) = [a0; a1; a2; a3].
Proof.
  destruct a0 as [p0 p1 p2 p3 p4 p5 p6 p7], a1 as [q0 q1 q2 q3 q4 q5 q6 q7],
    a2 as [r0 r1 r2 r3 r4 r5 r6 r7], a3 as [s0 s1 s2 s3 s4 s5 s6 s7].
  cbn. repeat f_equal; btauto.
Qed.

Lemma inv_mix_columns_cons a0 a1 a2 a3 s :
  inv_mix_columns (mix_columns (a0 :: a1 :: a2 :: a3 :: s))
  = [a0; a1; a2; a3] ++ inv_mix_columns (mix_columns s).
Proof.
  rewrite <- (inv_mix_column a0 a1 a2 a3). reflexivity.
Qed.

Lemma inv_mix_columns_mix_columns s :
  length s = block_size → inv_mix_columns (mix_columns s) = s.
Proof. intros H. list16 s H. now rewrite !inv_mix_columns_cons. Qed.

Lemma length_shift_rows s : length (shift_rows s) = block_size.
Proof. reflexivity. Qed.

Lemma length_mix_columns s :
  length s = block_size → length (mix_columns s) = block_size.
Proof. intros H. list16 s H. reflexivity. Qed.

Lemma length_next_round_key rk rc :
  length rk = block_size → length (next_round_key rk rc) = block_size.
Proof. intros H. list16 rk H. reflexivity. Qed.

Lemma length_expand_key n rk rc :
  length rk = block_size →
  Forall (fun rk' => length rk' = block_size) (expand_key n rk rc).
Proof.
  revert rk rc. induction n as [|n IH]; intros rk rc H; cbn [expand_key];
    constructor.
  - now apply length_next_round_key.
  - now apply IH, length_next_round_key.
Qed.

Lemma length_aes_key key : length (aes_key key) = block_size.
Proof.
  unfold aes_key. rewrite length_take, length_app, length_replicate. lia.
Qed.

Lemma length_aes_rounds rks s :
  Forall (fun rk => length rk = block_size) rks → length s = block_size →
  length (aes_rounds rks s) = block_size.
Proof.
  intros Hr. revert s. induction Hr as [|rk rks Hrk Hr IH]; intros s Hs;
    [exact Hs|].
  cbn [aes_rounds]. destruct rks as [|rk' rks].
  - rewrite length_xor_bytes; rewrite length_shift_rows; congruence.
  - apply IH. rewrite length_xor_bytes;
      rewrite length_mix_columns; rewrite ?length_shift_rows; congruence.
Qed.

Lemma aes_inv_rounds_rounds rks s :
  Forall (fun rk => length rk = block_size) rks → length s = block_size →
  aes_inv_rounds rks (aes_rounds rks s) = s.
Proof.
  intros Hr. revert s. induction Hr as [|rk rks Hrk Hr IH]; intros s Hs;
    [reflexivity|].
  assert (Hl : length (sub_bytes s) = block_size)
    by (unfold sub_bytes; now rewrite length_map).
  cbn [aes_rounds aes_inv_rounds]. destruct rks as [|rk' rks].
  - rewrite xor_bytes_cancel by (rewrite length_shift_rows; congruence).
    rewrite inv_shift_rows_shift_rows by exact Hl.
    apply inv_sub_bytes_sub_bytes.
  - rewrite IH.
    + rewrite xor_bytes_cancel
        by (rewrite length_mix_columns; rewrite ?length_shift_rows; congruence).
      rewrite inv_mix_columns_mix_columns by apply length_shift_rows.
      rewrite inv_shift_rows_shift_rows by exact Hl.
      apply inv_sub_bytes_sub_bytes.
    + rewrite length_xor_bytes;
        rewrite length_mix_columns; rewrite ?length_shift_rows; congruence.
Qed.

(** The example vector of FIPS 197, appendix C.1. *)
Example aes128_fips197_vector :
  aes_encrypt (of_hex [0x00; 0x01; 0x02; 0x03; 0x04; 0x05; 0x06; 0x07;
                       0x08; 0x09; 0x0a; 0x0b; 0x0c; 0x0d; 0x0e; 0x0f]%N)
              (of_hex [0x00; 0x11; 0x22; 0x33; 0x44; 0x55; 0x66; 0x77;
                       0x88; 0x99; 0xaa; 0xbb; 0xcc; 0xdd; 0xee; 0xff]%N)
  = of_hex [0x69; 0xc4; 0xe0; 0xd8; 0x6a; 0x7b; 0x04; 0x30;
            0xd8; 0xcd; 0xb7; 0x80; 0x70; 0xb4; 0xc5; 0x5a]%N.
Proof. vm_compute. reflexivity. Qed.

Lemma aes128_laws : BlockCipherLaws aes128.
Proof.
  split; intros key b Hb; cbn [aes128 block_encrypt block_decrypt];
    unfold aes_encrypt, aes_decrypt;
    pose proof (length_aes_key key) as Hk;
    pose proof (length_expand_key 10 (aes_key key) one Hk) as Hr.
  - apply length_aes_rounds; [exact Hr|]. rewrite length_xor_bytes; congruence.
  - rewrite length_xor_bytes; [|rewrite Hk]; reflexivity.
  - rewrite aes_inv_rounds_rounds; [|exact Hr|rewrite length_xor_bytes; congruence].
    apply xor_bytes_cancel. congruence.
Qed.

(** What the library returns for the key ["0123456789abcdef"] and the
    hardcoded initial vector, on the empty string, on one full block and
    on a string of 26 bytes. *)
Example cbc_pkcs_encrypt_vectors :
  let enc p := cbc_pkcs_encrypt aes128 (list_ascii_of_string "0123456789abcdef")
                 (list_ascii_of_string hardcoded_iv) (list_ascii_of_string p) in
  enc EmptyString
  = of_hex [0x2f; 0x53; 0x9b; 0x7c; 0xda; 0x71; 0x95; 0x35;
              0x97; 0x18; 0xfe; 0xf2; 0xd2; 0x30; 0x31; 0x5b]%N ∧
  enc "0123456789abcdef"
  = of_hex [0x85; 0xde; 0x2a; 0x19; 0x7a; 0xe2; 0x38; 0xa2;
              0xb6; 0xc4; 0xef; 0xd9; 0x4b; 0x5c; 0x6b; 0x3f;
              0x5f; 0x0b; 0xf7; 0x9c; 0x72; 0xba; 0x29; 0xd3;
              0x9f; 0x5a; 0xe0; 0xdb; 0x7e; 0x4d; 0x8a; 0x1d]%N ∧
  enc "hello world, in two blocks"
  = of_hex [0xed; 0x63; 0x12; 0x13; 0x47; 0x14; 0x18; 0x21;
              0x83; 0x40; 0x14; 0xd0; 0x8b; 0xb3; 0x09; 0xa9;
              0x7d; 0x19; 0xd6; 0x56; 0x7d; 0x6f; 0x1e; 0x83;
              0xd6; 0x3e; 0xc1; 0xa9; 0xd6; 0xe7; 0xef; 0x17]%N.
Proof. vm_compute. repeat split. Qed.

(** ** The drivers: construction, state, dispatch *)

Section Driver_facts.

Variable km : KeyManager.

Lemma M2CryptoDriver_inv cnf d :
  M2CryptoDriver km cnf = Return d →
  M2_invariant km d ∧ key_value km (attrs km d) = EmptyString ∧
  conf km (attrs km d) = cnf.
Proof.
  unfold M2CryptoDriver, CryptoDriver_init.
  destruct (km_get_driver km cnf _) as [ks|e]; cbn [mbind outcome_bind mret outcome_ret];
    [|discriminate].
  destruct (decide _) as [|Hp]; [discriminate|].
  intros [= <-]. cbn. repeat split.
  destruct (decide (dict_get_default cnf "crypto_protocol" (PyStr "aes_128_cbc")
                    = PyStr "aes_128_cbc")); [assumption | contradiction].
Qed.

Lemma get_key_value_inv key_id d :
  M2_invariant km d → M2_invariant km (get_key_value km key_id d).2.
Proof.
  unfold get_key_value. destruct (get_key km _ key_id); [|trivial].
  destruct d; cbn; trivial.
Qed.

Lemma bind_keys_inv ids d :
  M2_invariant km d → M2_invariant km (bind_keys km ids d).
Proof.
  revert d. induction ids as [|k ids IH]; intros d Hd; [exact Hd|].
  apply IH, get_key_value_inv, Hd.
Qed.

Lemma bind_keys_snoc ids key_id d :
  bind_keys km (ids ++ [key_id]) d = (get_key_value km key_id (bind_keys km ids d)).2.
Proof. unfold bind_keys. now rewrite foldl_app. Qed.

Lemma get_key_value_keystore key_id d :
  keystore_driver km (attrs km (get_key_value km key_id d).2)
  = keystore_driver km (attrs km d).
Proof.
  unfold get_key_value. destruct (get_key km _ key_id); [|reflexivity].
  now destruct d.
Qed.

Lemma bind_keys_keystore ids d :
  keystore_driver km (attrs km (bind_keys km ids d)) = keystore_driver km (attrs km d).
Proof.
  revert d. induction ids as [|k ids IH]; intros d; [reflexivity|].
  change (bind_keys km (k :: ids) d) with (bind_keys km ids (get_key_value km k d).2).
  now rewrite IH, get_key_value_keystore.
Qed.

Variable lib : CipherLibrary.

Lemma crypt_state chunk d : (crypt km lib chunk d).2 = d.
Proof. now destruct d. Qed.

Lemma decrypt_state chunk d : (decrypt km lib chunk d).2 = d.
Proof. now destruct d. Qed.

Lemma crypted_len_state n d : (crypted_len km lib n d).2 = d.
Proof.
  unfold crypted_len, mbind, method_bind.
  pose proof (crypt_state (str_repeat "a" n) d) as H.
  destruct (crypt km lib (str_repeat "a" n) d) as [[v|e] d']; cbn in *; congruence.
Qed.

End Driver_facts.

(** ** The block-cipher driver over the CBC cipher object *)

Section M2_facts.

Variable bc : BlockCipher.
Variable km : KeyManager.

Lemma crypt_evp chunk d :
  M2_invariant km d →
  crypt km (evp bc) chunk d =
  (Return (PyStr (string_of_list_ascii
     (cbc_pkcs_encrypt bc (list_ascii_of_string (key_value km (attrs km d)))
        (list_ascii_of_string hardcoded_iv) (list_ascii_of_string chunk)))), d).
Proof.
  destruct d as [b|b|b iv]; cbn [M2_invariant]; try contradiction.
  intros [-> Hp]. cbn [crypt attrs]. now rewrite cipher_body_encrypt.
Qed.

Lemma decrypt_evp chunk d :
  M2_invariant km d →
  decrypt km (evp bc) chunk d =
  (match cbc_pkcs_decrypt bc (list_ascii_of_string (key_value km (attrs km d)))
           (list_ascii_of_string hardcoded_iv) (list_ascii_of_string chunk) with
   | Return p => Return (PyStr (string_of_list_ascii p))
   | Raise e => Raise e
   end, d).
Proof.
  destruct d as [b|b|b iv]; cbn [M2_invariant]; try contradiction.
  intros [-> Hp]. cbn [decrypt attrs]. rewrite cipher_body_decrypt by exact Hp.
  unfold cbc_pkcs_decrypt. destruct (cbc_decrypt bc _ _ _ _) as [out chain].
  destruct (decide _); [reflexivity|]. now destruct (pkcs_unpad _).
Qed.

End M2_facts.

(** ** Errors of the cipher object in [crypt] and [decrypt] *)

Section Cipher_errors.

Variable km : KeyManager.
Variable lib : CipherLibrary.

Lemma cipher_body_succeeds (b : CryptoDriver km) iv op chunk v f :
  cipher_succeeds lib (protocol km b) (key_value km b) iv op chunk v f →
  cipher_body km lib b iv op chunk = Return (PyStr (v +:+ f)).
Proof.
  intros (ctx & Hc & Hu & Hf). unfold cipher_body. rewrite Hc.
  cbn [mbind outcome_bind].
  destruct (cipher_update lib chunk ctx) as [r1 ctx1]. cbn [fst snd] in *. subst r1.
  destruct (cipher_final lib ctx1) as [r2 ctx2]. cbn [fst] in *. now subst r2.
Qed.

Lemma cipher_body_fails (b : CryptoDriver km) iv op chunk e :
  cipher_fails lib (protocol km b) (key_value km b) iv op chunk e →
  cipher_body km lib b iv op chunk = Raise e.
Proof.
  unfold cipher_body. intros [Hc | (ctx & Hc & H)]; rewrite Hc; [reflexivity|].
  cbn [mbind outcome_bind].
  destruct (cipher_update lib chunk ctx) as [r1 ctx1]. cbn [fst snd] in *.
  destruct H as [-> | (v & -> & Hf)].
  - now destruct (cipher_final lib ctx1).
  - destruct (cipher_final lib ctx1) as [r2 ctx2]. cbn [fst] in *. now subst r2.
Qed.

(** The case the [except] clause has no branch for: a [ValueError] whose
    first argument is not ['unknown cipher'] ends the method, which returns
    [None]. *)
Lemma other_ValueError_returns_None (b : CryptoDriver km) iv chunk a0 args :
  cipher_fails lib (protocol km b) (key_value km b) iv 1 chunk
    (Exn ValueError (a0 :: args)) →
  a0 ≠ PyStr "unknown cipher" →
  crypt km lib chunk (M2CryptoDriverObj km b iv) = (Return PyNone, M2CryptoDriverObj km b iv).
Proof.
  intros Hf Hne. cbn [crypt]. rewrite (cipher_body_fails _ _ _ _ _ Hf).
  cbn. now rewrite decide_False.
Qed.

End Cipher_errors.

(** ** The example objects *)

Lemma example_driver_constructed : M2CryptoDriver example_km ∅ = Return example_driver.
Proof. reflexivity. Qed.

(** The [ValueError] of [crypt] for a driver whose [protocol] attribute
    names an algorithm the library does not know. *)
Example crypt_unknown_cipher :
  crypt example_km (evp aes128) "hello"
    (M2CryptoDriverObj example_km
       (Build_CryptoDriver example_km ∅ (PyStr "rot13") example_keys EmptyString)
       hardcoded_iv)
  = (Raise (Exn ValueError
       [PyStr "'unknown cipher':'rot13' please select avaliable protocol                         type"]),
     M2CryptoDriverObj example_km
       (Build_CryptoDriver example_km ∅ (PyStr "rot13") example_keys EmptyString)
       hardcoded_iv).
Proof. vm_compute. reflexivity. Qed.

(** An error of a class derived from [ValueError] is caught like a
    [ValueError]: here the clause finds no 'unknown cipher' and the method
    returns [None]. *)
Example crypt_catches_ValueError_subclass :
  crypt example_km
    (raising_cipher (Exn (NamedError "UnicodeEncodeError") [PyStr "ascii"]))
    "hello" example_driver = (Return PyNone, example_driver) ∧
  crypt example_km
    (raising_cipher (Exn (ValueErrorSubclass "CipherValueError") [PyStr "ascii"]))
    "hello" example_driver = (Return PyNone, example_driver) ∧
  crypt example_km
    (raising_cipher (Exn (NamedError "KeyError") [PyStr "ascii"]))
    "hello" example_driver = (Raise (Exn (NamedError "KeyError") [PyStr "ascii"]), example_driver).
Proof. repeat split. Qed.

(** ** Properties of the drivers *)

(** C1. Round trip of the block-cipher driver: on a constructed driver,
    after any sequence of [get_key_value] calls, [crypt] of any string [p]
    returns a string [c], and [decrypt] of [c] on the same driver returns
    exactly [p] (the empty string, a single byte, several blocks, any
    length). *)
Theorem decrypt_crypt_roundtrip (bc : BlockCipher) (km : KeyManager)
    (cnf : conf_dict) (ids : list string) (d0 : Driver km) (p : string) :
  BlockCipherLaws bc →
  M2CryptoDriver km cnf = Return d0 →
  let d := bind_keys km ids d0 in
  ∃ c, crypt km (evp bc) p d = (Return (PyStr c), d) ∧
       decrypt km (evp bc) c d = (Return (PyStr p), d).
Proof.
  intros Hbc Hd0 d.
  assert (Hd : M2_invariant km d)
    by (apply bind_keys_inv; apply (M2CryptoDriver_inv km cnf d0 Hd0)).
  eexists. split; [apply crypt_evp, Hd|].
  rewrite decrypt_evp by exact Hd.
  rewrite list_ascii_of_string_of_list_ascii.
  rewrite (cbc_pkcs_decrypt_encrypt bc Hbc) by reflexivity.
  now rewrite string_of_list_ascii_of_string.
Qed.

Lemma decrypt_crypt_roundtrip_witness :
  let d := bind_keys example_km ["k1"] example_driver in
  ∃ c, crypt example_km (evp aes128) "hello world" d = (Return (PyStr c), d) ∧
       decrypt example_km (evp aes128) c d = (Return (PyStr "hello world"), d).
Proof.
  exact (decrypt_crypt_roundtrip aes128 example_km ∅ ["k1"] example_driver
           "hello world" aes128_laws example_driver_constructed).
Defined.

(** C2, counterexample. On a driver just constructed, with no
    [get_key_value] call, [crypt] raises no error: it returns a ciphertext. *)
Lemma crypt_before_get_key_value_counterexample :
  M2CryptoDriver example_km ∅ = Return example_driver ∧
  key_value example_km (attrs example_km example_driver) = EmptyString ∧
  (∃ c, (crypt example_km (evp aes128) "hello" example_driver).1 = Return (PyStr c)) ∧
  ¬ raises (crypt example_km (evp aes128) "hello" example_driver).1
      (NamedError "KeyNotBoundError").
Proof.
  split; [reflexivity|]. split; [reflexivity|]. split.
  - eexists. vm_compute. reflexivity.
  - intros [args H]. vm_compute in H. discriminate H.
Qed.

(** C2, amended. On a driver just constructed, [key_value] is the class
    attribute, the empty string, and [crypt] and [decrypt] run the cipher
    with it: [crypt] returns the CBC encryption of the chunk under the empty
    key, [decrypt] returns or raises what the CBC decryption under the empty
    key does; neither raises a key-not-bound error. *)
Theorem crypt_before_get_key_value (bc : BlockCipher) (km : KeyManager)
    (cnf : conf_dict) (d : Driver km) (chunk : string) :
  M2CryptoDriver km cnf = Return d →
  key_value km (attrs km d) = EmptyString ∧
  crypt km (evp bc) chunk d =
    (Return (PyStr (string_of_list_ascii
       (cbc_pkcs_encrypt bc [] (list_ascii_of_string hardcoded_iv)
          (list_ascii_of_string chunk)))), d) ∧
  decrypt km (evp bc) chunk d =
    (match cbc_pkcs_decrypt bc [] (list_ascii_of_string hardcoded_iv)
             (list_ascii_of_string chunk) with
     | Return p => Return (PyStr (string_of_list_ascii p))
     | Raise e => Raise e
     end, d) ∧
  ¬ raises (crypt km (evp bc) chunk d).1 (NamedError "KeyNotBoundError") ∧
  ¬ raises (decrypt km (evp bc) chunk d).1 (NamedError "KeyNotBoundError").
Proof.
  intros Hd. destruct (M2CryptoDriver_inv km cnf d Hd) as (Hinv & Hk & _).
  pose proof (crypt_evp bc km chunk d Hinv) as Hc.
  pose proof (decrypt_evp bc km chunk d Hinv) as Hdec.
  rewrite Hk in Hc, Hdec. cbn [list_ascii_of_string] in Hc, Hdec.
  split; [exact Hk|]. split; [exact Hc|]. split; [exact Hdec|].
  rewrite Hc, Hdec. cbn [fst]. split; intros [args H]; [discriminate H|].
  destruct (cbc_pkcs_decrypt bc _ _ _) as [q|e] eqn:E; [discriminate H|].
  apply cbc_pkcs_decrypt_raises in E. injection H as ->. discriminate E.
Qed.

Lemma crypt_before_get_key_value_witness :
  key_value example_km (attrs example_km example_driver) = EmptyString ∧
  crypt example_km (evp aes128) "hello" example_driver =
    (Return (PyStr (string_of_list_ascii
       (cbc_pkcs_encrypt aes128 [] (list_ascii_of_string hardcoded_iv)
          (list_ascii_of_string "hello")))), example_driver) ∧
  decrypt example_km (evp aes128) "hello" example_driver =
    (match cbc_pkcs_decrypt aes128 [] (list_ascii_of_string hardcoded_iv)
             (list_ascii_of_string "hello") with
     | Return p => Return (PyStr (string_of_list_ascii p))
     | Raise e => Raise e
     end, example_driver) ∧
  ¬ raises (crypt example_km (evp aes128) "hello" example_driver).1
      (NamedError "KeyNotBoundError") ∧
  ¬ raises (decrypt example_km (evp aes128) "hello" example_driver).1
      (NamedError "KeyNotBoundError").
Proof.
  exact (crypt_before_get_key_value aes128 example_km ∅ example_driver "hello"
           example_driver_constructed).
Defined.

(** C3. The length of what [crypt] returns for [p] is what [crypted_len]
    returns for [len(p)]; it is [16 * (len(p) / 16 + 1)], the same for all
    strings of that length, and the same as for the string of [len(p)]
    letters [a] that [crypted_len] encrypts. *)
Theorem crypted_len_is_len_crypt (bc : BlockCipher) (km : KeyManager)
    (cnf : conf_dict) (ids : list string) (d0 : Driver km) (p : string) :
  BlockCipherLaws bc →
  M2CryptoDriver km cnf = Return d0 →
  let d := bind_keys km ids d0 in
  ∃ c, crypt km (evp bc) p d = (Return (PyStr c), d) ∧
       crypted_len km (evp bc) (len p) d = (Return (len c), d) ∧
       len c = 16 * (len p / 16 + 1) ∧
       (∃ c', crypt km (evp bc) (str_repeat "a" (len p)) d = (Return (PyStr c'), d) ∧
              len c' = len c) ∧
       (∀ p', len p' = len p →
          ∃ c', crypt km (evp bc) p' d = (Return (PyStr c'), d) ∧ len c' = len c).
Proof.
  intros Hbc Hd0 d.
  assert (Hd : M2_invariant km d)
    by (apply bind_keys_inv; apply (M2CryptoDriver_inv km cnf d0 Hd0)).
  assert (Hlen : ∀ q, len (string_of_list_ascii (cbc_pkcs_encrypt bc
            (list_ascii_of_string (key_value km (attrs km d)))
            (list_ascii_of_string hardcoded_iv) (list_ascii_of_string q)))
          = 16 * (len q / 16 + 1))
    by (intros q; now apply len_cbc_pkcs_encrypt).
  assert (Ha : len (str_repeat "a" (len p)) = len p)
    by (rewrite len_str_repeat; unfold len; lia).
  eexists. split; [apply crypt_evp, Hd|]. split; [|split; [|split]].
  - unfold crypted_len, mbind, method_bind. rewrite crypt_evp by exact Hd.
    unfold mret, method_ret. cbn [py_str]. now rewrite !Hlen, Ha.
  - apply Hlen.
  - eexists. split; [apply crypt_evp, Hd|]. now rewrite !Hlen, Ha.
  - intros p' Hp'. eexists. split; [apply crypt_evp, Hd|]. now rewrite !Hlen, Hp'.
Qed.

Lemma crypted_len_is_len_crypt_witness :
  let d := bind_keys example_km ["k1"] example_driver in
  let p := "hello world, in two blocks" in
  ∃ c, crypt example_km (evp aes128) p d = (Return (PyStr c), d) ∧
       crypted_len example_km (evp aes128) (len p) d = (Return (len c), d) ∧
       len c = 16 * (len p / 16 + 1) ∧
       (∃ c', crypt example_km (evp aes128) (str_repeat "a" (len p)) d
              = (Return (PyStr c'), d) ∧ len c' = len c) ∧
       (∀ p', len p' = len p →
          ∃ c', crypt example_km (evp aes128) p' d = (Return (PyStr c'), d) ∧
                len c' = len c).
Proof.
  exact (crypted_len_is_len_crypt aes128 example_km ∅ ["k1"] example_driver
           "hello world, in two blocks" aes128_laws example_driver_constructed).
Defined.

(** C4, counterexample. The protocol ["aes_128_cbc"] is not
    ["aes-128-cbc"] and the construction succeeds with it, while with
    ["aes-128-cbc"] it raises. *)
Lemma M2CryptoDriver_protocol_counterexample :
  PyStr "aes_128_cbc" ≠ PyStr "aes-128-cbc" ∧
  (∃ d, M2CryptoDriver example_km {[ "crypto_protocol" := PyStr "aes_128_cbc" ]}
        = Return d) ∧
  M2CryptoDriver example_km {[ "crypto_protocol" := PyStr "aes-128-cbc" ]}
  = Raise (Exn NotImplementedError [PyStr "Incorrect protocol"]).
Proof.
  split; [discriminate|]. split; [eexists|]; vm_compute; reflexivity.
Qed.

(** C4, amended. Once the key-store driver is built ([CryptoDriver.__init__]
    does that first, and an error there is the error of the construction):
    with [crypto_protocol] set to anything but ["aes_128_cbc"] the
    construction raises [NotImplementedError("Incorrect protocol")]; with
    [crypto_protocol] absent it succeeds, with the protocol
    ["aes_128_cbc"], the hardcoded [iv] and the empty [key_value]. *)
Theorem M2CryptoDriver_protocol_check (km : KeyManager) (cnf : conf_dict)
    (ks : keystore km) :
  km_get_driver km cnf (dict_get cnf "crypto_keystore_driver") = Return ks →
  (∀ v, cnf !! "crypto_protocol" = Some v → v ≠ PyStr "aes_128_cbc" →
     M2CryptoDriver km cnf = Raise (Exn NotImplementedError [PyStr "Incorrect protocol"])) ∧
  (cnf !! "crypto_protocol" = None →
     M2CryptoDriver km cnf =
     Return (M2CryptoDriverObj km
               (Build_CryptoDriver km cnf (PyStr "aes_128_cbc") ks EmptyString)
               "3141527182810345")).
Proof.
  intros Hks. unfold M2CryptoDriver, CryptoDriver_init, dict_get_default.
  rewrite Hks. cbn [mbind outcome_bind mret outcome_ret].
  split.
  - intros v Hv Hne. rewrite Hv. cbn [default]. now rewrite decide_True.
  - intros Hv. rewrite Hv. cbn [default]. rewrite decide_False by (intros H; now apply H).
    reflexivity.
Qed.

Lemma M2CryptoDriver_protocol_check_witness :
  let cnf : conf_dict := {[ "crypto_protocol" := PyStr "rot13" ]} in
  (∀ v, cnf !! "crypto_protocol" = Some v → v ≠ PyStr "aes_128_cbc" →
     M2CryptoDriver example_km cnf
     = Raise (Exn NotImplementedError [PyStr "Incorrect protocol"])) ∧
  (cnf !! "crypto_protocol" = None →
     M2CryptoDriver example_km cnf =
     Return (M2CryptoDriverObj example_km
               (Build_CryptoDriver example_km cnf (PyStr "aes_128_cbc") example_keys
                  EmptyString)
               "3141527182810345")).
Proof.
  exact (M2CryptoDriver_protocol_check example_km
           {[ "crypto_protocol" := PyStr "rot13" ]} example_keys eq_refl).
Defined.

(** C5, counterexample. [decrypt] of a chunk that is not a
    whole number of blocks raises the very error of the cipher object's
    [final], an [EVPError] that holds the library's reason and nothing
    else; it is not raised again with the protocol name. *)
Lemma decrypt_error_unwrapped_counterexample :
  let e := Exn EVPError [PyStr "wrong final block length"] in
  cipher_fails (evp aes128) (PyStr "aes_128_cbc") EmptyString
    "3141527182810345" 0 "hello" e ∧
  decrypt example_km (evp aes128) "hello" example_driver = (Raise e, example_driver).
Proof.
  split; [|vm_compute; reflexivity].
  right. eexists. split; [vm_compute; reflexivity|].
  right. eexists. split; vm_compute; reflexivity.
Qed.

(** C5, amended. In [crypt] and in [decrypt] of the block-cipher driver:
    when the three calls on the cipher object return, the method returns
    the whole output, [update]'s followed by [final]'s; when one of them
    raises an error whose class is not [ValueError] nor derives from it,
    the method raises that same error, as it is; when one raises
    [ValueError('unknown cipher', alg)] (or an error of a class derived
    from [ValueError] with these arguments), the method raises a
    [ValueError] whose message holds both. *)
Theorem cipher_errors_in_crypt_decrypt (km : KeyManager) (lib : CipherLibrary)
    (self : CryptoDriver km) (iv chunk : string) :
  let d := M2CryptoDriverObj km self iv in
  let alg := protocol km self in
  let key := key_value km self in
  (∀ v f, cipher_succeeds lib alg key iv 1 chunk v f →
     crypt km lib chunk d = (Return (PyStr (v +:+ f)), d)) ∧
  (∀ v f, cipher_succeeds lib alg key iv 0 chunk v f →
     decrypt km lib chunk d = (Return (PyStr (v +:+ f)), d)) ∧
  (∀ e, derives_from_ValueError (exn_cls e) = false →
     (cipher_fails lib alg key iv 1 chunk e → crypt km lib chunk d = (Raise e, d)) ∧
     (cipher_fails lib alg key iv 0 chunk e → decrypt km lib chunk d = (Raise e, d))) ∧
  (∀ c a, derives_from_ValueError c = true →
     let e := Exn c [PyStr "unknown cipher"; a] in
     let e' := Exn ValueError
                 [PyStr (unknown_cipher_message (PyStr "unknown cipher") a)] in
     (cipher_fails lib alg key iv 1 chunk e → crypt km lib chunk d = (Raise e', d)) ∧
     (cipher_fails lib alg key iv 0 chunk e → decrypt km lib chunk d = (Raise e', d))).
Proof.
  intros d alg key. subst d alg key. cbn [crypt decrypt].
  split; [|split; [|split]].
  - intros v f H. now rewrite (cipher_body_succeeds _ _ _ _ _ _ _ _ H).
  - intros v f H. now rewrite (cipher_body_succeeds _ _ _ _ _ _ _ _ H).
  - intros e He. split; intros H; rewrite (cipher_body_fails _ _ _ _ _ _ _ H);
      cbn [try_except_ValueError]; now rewrite He.
  - intros c a Hc. cbv zeta.
    split; intros H; rewrite (cipher_body_fails _ _ _ _ _ _ _ H);
      cbn [try_except_ValueError exn_cls]; rewrite Hc; reflexivity.
Qed.

(** C6. Two [crypt] calls in a row on the same string, with the same key
    bound, return the same ciphertext: the CBC encryption of the string
    under the bound key from the initial vector [3141527182810345], the
    16-byte constant that every driver holds whatever its configuration
    and key. *)
Theorem crypt_twice_same_ciphertext (bc : BlockCipher) (km : KeyManager)
    (cnf : conf_dict) (ids : list string) (d0 : Driver km) (p : string) :
  M2CryptoDriver km cnf = Return d0 →
  let d := bind_keys km ids d0 in
  let first := crypt km (evp bc) p d in
  let second := crypt km (evp bc) p first.2 in
  let c := string_of_list_ascii
             (cbc_pkcs_encrypt bc (list_ascii_of_string (key_value km (attrs km d)))
                (list_ascii_of_string "3141527182810345") (list_ascii_of_string p)) in
  first.1 = Return (PyStr c) ∧ second.1 = Return (PyStr c) ∧
  iv_of km d = Some "3141527182810345" ∧ len "3141527182810345" = 16.
Proof.
  intros Hd0 d first second c.
  assert (Hd : M2_invariant km d)
    by (apply bind_keys_inv; apply (M2CryptoDriver_inv km cnf d0 Hd0)).
  subst second first. rewrite crypt_evp by exact Hd. cbn [fst snd].
  rewrite crypt_evp by exact Hd. repeat split.
  destruct d as [| |b iv]; cbn in Hd; try contradiction. destruct Hd as [-> _].
  reflexivity.
Qed.

Lemma crypt_twice_same_ciphertext_witness :
  let d := bind_keys example_km ["k1"] example_driver in
  let first := crypt example_km (evp aes128) "hello" d in
  let second := crypt example_km (evp aes128) "hello" first.2 in
  let c := string_of_list_ascii
             (cbc_pkcs_encrypt aes128
                (list_ascii_of_string (key_value example_km (attrs example_km d)))
                (list_ascii_of_string "3141527182810345")
                (list_ascii_of_string "hello")) in
  first.1 = Return (PyStr c) ∧ second.1 = Return (PyStr c) ∧
  iv_of example_km d = Some "3141527182810345" ∧ len "3141527182810345" = 16.
Proof.
  exact (crypt_twice_same_ciphertext aes128 example_km ∅ ["k1"] example_driver
           "hello" example_driver_constructed).
Defined.

(** C7, counterexample. After [get_key_value("k1")], [crypt],
    [get_key_value("k2")], where the two keys differ, [decrypt] of the
    ciphertext raises the cipher object's [EVPError('bad decrypt')]; it does
    not return other bytes. *)
Lemma decrypt_under_other_key_counterexample :
  let d1 := (get_key_value example_km "k1" example_driver).2 in
  let d2 := (get_key_value example_km "k2" d1).2 in
  key_value example_km (attrs example_km d1) ≠ key_value example_km (attrs example_km d2) ∧
  let c := string_of_list_ascii
             (of_hex [0xb1; 0x82; 0x37; 0x00; 0x38; 0xff; 0xad; 0x0e;
                      0x58; 0x71; 0x94; 0x2b; 0x1b; 0x07; 0x4a; 0x95]%N) in
  crypt example_km (evp aes128) "hello world" d1 = (Return (PyStr c), d1) ∧
  decrypt example_km (evp aes128) c d2
  = (Raise (Exn EVPError [PyStr "bad decrypt"]), d2).
Proof.
  cbv zeta. split; [vm_compute; discriminate|].
  split; [vm_compute; reflexivity|]. vm_compute. reflexivity.
Qed.

(** C7, amended. After [get_key_value(k1)], [crypt(p)] giving [c], and
    [get_key_value(k2)], when the block cipher decrypts the last block of
    [c] differently under the two keys, [decrypt(c)] does not return [p]:
    it raises the cipher object's [EVPError('bad decrypt')], or it returns
    other bytes. *)
Theorem decrypt_under_other_key (bc : BlockCipher) (km : KeyManager)
    (cnf : conf_dict) (d0 : Driver km) (k1 k2 p c : string) :
  BlockCipherLaws bc →
  M2CryptoDriver km cnf = Return d0 →
  let d1 := (get_key_value km k1 d0).2 in
  let d2 := (get_key_value km k2 d1).2 in
  let key1 := list_ascii_of_string (key_value km (attrs km d1)) in
  let key2 := list_ascii_of_string (key_value km (attrs km d2)) in
  crypt km (evp bc) p d1 = (Return (PyStr c), d1) →
  block_decrypt bc key2 (last_block c) ≠ block_decrypt bc key1 (last_block c) →
  decrypt km (evp bc) c d2 = (Raise (Exn EVPError [PyStr "bad decrypt"]), d2) ∨
  ∃ p', decrypt km (evp bc) c d2 = (Return (PyStr p'), d2) ∧ p' ≠ p.
Proof.
  intros Hbc Hd0 d1 d2 key1 key2 Hc Hne.
  assert (Hd1 : M2_invariant km d1)
    by (apply get_key_value_inv; apply (M2CryptoDriver_inv km cnf d0 Hd0)).
  assert (Hd2 : M2_invariant km d2) by (apply get_key_value_inv, Hd1).
  pose proof (crypt_evp bc km p d1 Hd1) as Hc'. fold key1 in Hc'.
  assert (Hcc : c = string_of_list_ascii (cbc_pkcs_encrypt bc key1
            (list_ascii_of_string hardcoded_iv) (list_ascii_of_string p)))
    by congruence.
  clear Hc Hc'. subst c. unfold last_block in Hne.
  rewrite list_ascii_of_string_of_list_ascii in Hne.
  rewrite decrypt_evp by exact Hd2. fold key2.
  rewrite list_ascii_of_string_of_list_ascii.
  destruct (cbc_pkcs_decrypt_other_key bc Hbc key1 key2
              (list_ascii_of_string hardcoded_iv) (list_ascii_of_string p)
              eq_refl Hne) as [Hnp [Hbad | [p' Hp']]].
  - left. now rewrite Hbad.
  - right. rewrite Hp'. eexists. split; [reflexivity|].
    intros Heq. apply Hnp. rewrite Hp', <- Heq.
    now rewrite list_ascii_of_string_of_list_ascii.
Qed.

Lemma decrypt_under_other_key_witness :
  let d1 := (get_key_value example_km "k1" example_driver).2 in
  let d2 := (get_key_value example_km "k2" d1).2 in
  let c := string_of_list_ascii
             (of_hex [0xb1; 0x82; 0x37; 0x00; 0x38; 0xff; 0xad; 0x0e;
                      0x58; 0x71; 0x94; 0x2b; 0x1b; 0x07; 0x4a; 0x95]%N) in
  decrypt example_km (evp aes128) c d2 = (Raise (Exn EVPError [PyStr "bad decrypt"]), d2) ∨
  ∃ p', decrypt example_km (evp aes128) c d2 = (Return (PyStr p'), d2) ∧
        p' ≠ "hello world".
Proof.
  intros d1 d2 c.
  apply (decrypt_under_other_key aes128 example_km ∅ example_driver "k1" "k2"
           "hello world" c aes128_laws example_driver_constructed).
  - vm_compute. reflexivity.
  - vm_compute. discriminate.
Defined.

(** C8. The passthrough driver: [crypt] and [decrypt] return the string
    they are given, and [crypted_len] returns the length it is given, for
    every length [n >= 0]. *)
Theorem FakeDriver_identity (km : KeyManager) (lib : CipherLibrary)
    (self : CryptoDriver km) (p : string) (n : Z) :
  0 ≤ n →
  let d := FakeDriverObj km self in
  crypt km lib p d = (Return (PyStr p), d) ∧
  decrypt km lib p d = (Return (PyStr p), d) ∧
  crypted_len km lib n d = (Return n, d).
Proof.
  intros Hn d. repeat split.
  unfold crypted_len, mbind, method_bind. cbn [crypt d py_str].
  unfold mret, method_ret. rewrite len_str_repeat. do 2 f_equal. lia.
Qed.

Lemma FakeDriver_identity_witness :
  let d := FakeDriverObj example_km (attrs example_km example_driver) in
  crypt example_km (evp aes128) "hello" d = (Return (PyStr "hello"), d) ∧
  decrypt example_km (evp aes128) "hello" d = (Return (PyStr "hello"), d) ∧
  crypted_len example_km (evp aes128) 5 d = (Return 5, d).
Proof.
  apply (FakeDriver_identity example_km (evp aes128)
           (attrs example_km example_driver) "hello" 5). lia.
Defined.

(** C9. [get_key_value]: when the key store returns [v] for the key id, the
    call returns [None] and leaves the driver with [key_value = v],
    whatever [key_value] was before; so after any sequence of calls the
    key is the one of the last call. *)
Theorem get_key_value_last_wins (km : KeyManager) (d : Driver km)
    (ids : list string) (key_id v : string) :
  get_key km (keystore_driver km (attrs km d)) key_id = Return v →
  get_key_value km key_id d = (Return PyNone, set_key_value km v d) ∧
  key_value km (attrs km (set_key_value km v d)) = v ∧
  key_value km (attrs km (bind_keys km (ids ++ [key_id]) d)) = v.
Proof.
  intros Hk. split; [|split].
  - unfold get_key_value. now rewrite Hk.
  - now destruct d.
  - rewrite bind_keys_snoc. unfold get_key_value.
    rewrite bind_keys_keystore, Hk. cbn [snd]. now destruct (bind_keys km ids d).
Qed.

Lemma get_key_value_last_wins_witness :
  get_key_value example_km "k2" example_driver
  = (Return PyNone, set_key_value example_km "0123456789abcdeX" example_driver) ∧
  key_value example_km
    (attrs example_km (set_key_value example_km "0123456789abcdeX" example_driver))
  = "0123456789abcdeX" ∧
  key_value example_km
    (attrs example_km (bind_keys example_km (["k1"; "nokey"] ++ ["k2"]) example_driver))
  = "0123456789abcdeX".
Proof.
  apply (get_key_value_last_wins example_km example_driver ["k1"; "nokey"] "k2").
  reflexivity.
Defined.

(** C10. Frame: [crypt], [decrypt] and [crypted_len] leave the driver
    object as it was, whatever they return or raise; [get_key_value]
    changes at most [key_value]: [conf], [protocol], [keystore_driver] and
    [iv] stay. *)
Theorem methods_frame (km : KeyManager) (lib : CipherLibrary) (d : Driver km)
    (chunk key_id : string) (n : Z) :
  (crypt km lib chunk d).2 = d ∧
  (decrypt km lib chunk d).2 = d ∧
  (crypted_len km lib n d).2 = d ∧
  let d' := (get_key_value km key_id d).2 in
  conf km (attrs km d') = conf km (attrs km d) ∧
  protocol km (attrs km d') = protocol km (attrs km d) ∧
  keystore_driver km (attrs km d') = keystore_driver km (attrs km d) ∧
  iv_of km d' = iv_of km d ∧
  d' = set_key_value km (key_value km (attrs km d')) d.
Proof.
  split; [apply crypt_state|]. split; [apply decrypt_state|].
  split; [apply crypted_len_state|].
  unfold get_key_value. destruct (get_key km _ key_id); cbn [snd];
    now destruct d as [[]|[]|[] ?].
Qed.

(** ** Further properties of the drivers *)

Section Call_facts.

Variable km : KeyManager.
Variable lib : CipherLibrary.

Lemma set_key_value_same d : set_key_value km (key_value km (attrs km d)) d = d.
Proof. now destruct d as [[]|[]|[] ?]. Qed.

Lemma set_key_value_twice v w d :
  set_key_value km w (set_key_value km v d) = set_key_value km w d.
Proof. now destruct d. Qed.

Lemma set_key_value_attrs v d :
  keystore_driver km (attrs km (set_key_value km v d)) = keystore_driver km (attrs km d) ∧
  key_value km (attrs km (set_key_value km v d)) = v ∧
  conf km (attrs km (set_key_value km v d)) = conf km (attrs km d) ∧
  protocol km (attrs km (set_key_value km v d)) = protocol km (attrs km d) ∧
  iv_of km (set_key_value km v d) = iv_of km d.
Proof. now destruct d. Qed.

Lemma set_key_value_inv v d : M2_invariant km d → M2_invariant km (set_key_value km v d).
Proof. now destruct d. Qed.

Lemma run_calls_set_key_value (cs : list call) (d : Driver km) :
  run_calls km lib cs d =
  set_key_value km
    (bound_key km (keystore_driver km (attrs km d)) cs (key_value km (attrs km d))) d.
Proof.
  revert d. induction cs as [|c cs IH]; intros d.
  - cbn. now rewrite set_key_value_same.
  - change (run_calls km lib (c :: cs) d) with (run_calls km lib cs (do_call km lib c d)).
    rewrite IH. destruct c as [chunk|chunk|n|key_id]; cbn [do_call bound_key].
    + now rewrite crypt_state.
    + now rewrite decrypt_state.
    + now rewrite crypted_len_state.
    + unfold get_key_value.
      destruct (get_key km (keystore_driver km (attrs km d)) key_id) as [v|e];
        cbn [snd]; [|reflexivity].
      destruct (set_key_value_attrs v d) as (-> & -> & _).
      apply set_key_value_twice.
Qed.

Lemma run_calls_inv cs d : M2_invariant km d → M2_invariant km (run_calls km lib cs d).
Proof. intros H. rewrite run_calls_set_key_value. now apply set_key_value_inv. Qed.

(** X1. The object after any sequence of method calls is the object
    before it with, for [key_value], the key of the last [get_key_value]
    call whose key-store lookup returned (the old [key_value] if there is
    none): calls that raise, and calls of [crypt], [decrypt] and
    [crypted_len], change nothing; [conf], [protocol], [keystore_driver]
    and [iv] are those of the start. *)
Theorem run_calls_state (cs : list call) (d : Driver km) :
  let d' := run_calls km lib cs d in
  let key := bound_key km (keystore_driver km (attrs km d)) cs (key_value km (attrs km d)) in
  d' = set_key_value km key d ∧
  key_value km (attrs km d') = key ∧
  conf km (attrs km d') = conf km (attrs km d) ∧
  protocol km (attrs km d') = protocol km (attrs km d) ∧
  keystore_driver km (attrs km d') = keystore_driver km (attrs km d) ∧
  iv_of km d' = iv_of km d.
Proof.
  cbv zeta. rewrite run_calls_set_key_value.
  destruct (set_key_value_attrs
              (bound_key km (keystore_driver km (attrs km d)) cs
                 (key_value km (attrs km d))) d) as (? & ? & ? & ? & ?).
  repeat split; assumption.
Qed.

End Call_facts.

(** X2. [crypted_len] of the passthrough driver never returns a negative
    number: for a negative length the string of letters is empty and the
    result is 0, not the length given. *)
Theorem FakeDriver_crypted_len_negative (km : KeyManager) (lib : CipherLibrary)
    (self : CryptoDriver km) (n : Z) :
  n < 0 →
  crypted_len km lib n (FakeDriverObj km self) = (Return 0, FakeDriverObj km self).
Proof.
  intros Hn. unfold crypted_len, mbind, method_bind. cbn [crypt py_str].
  unfold mret, method_ret. rewrite len_str_repeat. do 2 f_equal. lia.
Qed.

Lemma FakeDriver_crypted_len_negative_witness :
  crypted_len example_km (evp aes128) (-3)
    (FakeDriverObj example_km (attrs example_km example_driver))
  = (Return 0, FakeDriverObj example_km (attrs example_km example_driver)).
Proof.
  apply (FakeDriver_crypted_len_negative example_km (evp aes128)
           (attrs example_km example_driver) (-3)). lia.
Defined.

(** X3. [M2CryptoDriver(conf)] returns a driver exactly when the key-store
    driver can be built and [crypto_protocol] is absent or is
    ["aes_128_cbc"]. *)
Theorem M2CryptoDriver_succeeds_iff (km : KeyManager) (cnf : conf_dict) :
  (∃ d, M2CryptoDriver km cnf = Return d) ↔
  (∃ ks, km_get_driver km cnf (dict_get cnf "crypto_keystore_driver") = Return ks) ∧
  (cnf !! "crypto_protocol" = None ∨
   cnf !! "crypto_protocol" = Some (PyStr "aes_128_cbc")).
Proof.
  unfold M2CryptoDriver, CryptoDriver_init, dict_get_default.
  destruct (km_get_driver km cnf _) as [ks|e]; cbn [mbind outcome_bind mret outcome_ret].
  - destruct (cnf !! "crypto_protocol") as [v|] eqn:Hv; cbn [default from_option id].
    + destruct (decide (v ≠ PyStr "aes_128_cbc")) as [Hne|He].
      * split; [intros [d H]; discriminate H|].
        intros [_ [H|H]]; [discriminate H|]. injection H as ->. now contradict Hne.
      * split; [|intros _; now eexists].
        intros _. split; [now eexists|]. right. f_equal.
        destruct (decide (v = PyStr "aes_128_cbc")); [assumption | contradiction].
    + rewrite decide_False by (intros H; now apply H).
      split; [intros _; split; [now eexists | now left] | intros _; now eexists].
  - split; [intros [d H]; discriminate H | intros [[ks H] _]; discriminate H].
Qed.

(** X4. When the key-store driver cannot be built, the construction of a
    driver of any class raises that error; for [M2CryptoDriver] it comes
    before the protocol check, so it is the error also when the protocol
    is not supported. *)
Theorem constructors_keystore_error (km : KeyManager) (cnf : conf_dict) (e : exn) :
  km_get_driver km cnf (dict_get cnf "crypto_keystore_driver") = Raise e →
  BaseDriver km cnf = Raise e ∧ FakeDriver km cnf = Raise e ∧
  M2CryptoDriver km cnf = Raise e.
Proof.
  intros H. unfold BaseDriver, FakeDriver, M2CryptoDriver, CryptoDriver_init.
  rewrite H. repeat split.
Qed.

Lemma constructors_keystore_error_witness :
  let km := strict_key_manager example_keys in
  let cnf : conf_dict := {[ "crypto_protocol" := PyStr "rot13" ]} in
  let e := Exn (NamedError "ImportError") [PyStr "no key store driver"] in
  BaseDriver km cnf = Raise e ∧ FakeDriver km cnf = Raise e ∧
  M2CryptoDriver km cnf = Raise e.
Proof.
  exact (constructors_keystore_error (strict_key_manager example_keys)
           {[ "crypto_protocol" := PyStr "rot13" ]}
           (Exn (NamedError "ImportError") [PyStr "no key store driver"]) eq_refl).
Defined.

(** X5. What one driver encrypts, any driver that holds the same key
    string decrypts: the drivers may come from different configurations
    and key stores and have any history of calls; nothing but the key
    string, the chunk and the hardcoded [iv] enters the ciphertext. *)
Theorem decrypt_crypt_across_drivers (bc : BlockCipher) (km1 km2 : KeyManager)
    (cnf1 cnf2 : conf_dict) (e1 : Driver km1) (e2 : Driver km2)
    (cs1 cs2 : list call) (p c : string) :
  BlockCipherLaws bc →
  M2CryptoDriver km1 cnf1 = Return e1 →
  M2CryptoDriver km2 cnf2 = Return e2 →
  let d1 := run_calls km1 (evp bc) cs1 e1 in
  let d2 := run_calls km2 (evp bc) cs2 e2 in
  key_value km1 (attrs km1 d1) = key_value km2 (attrs km2 d2) →
  crypt km1 (evp bc) p d1 = (Return (PyStr c), d1) →
  crypt km2 (evp bc) p d2 = (Return (PyStr c), d2) ∧
  decrypt km2 (evp bc) c d2 = (Return (PyStr p), d2).
Proof.
  intros Hbc H1 H2 d1 d2 Hk Hc.
  assert (Hd1 : M2_invariant km1 d1)
    by (apply run_calls_inv; apply (M2CryptoDriver_inv km1 cnf1 e1 H1)).
  assert (Hd2 : M2_invariant km2 d2)
    by (apply run_calls_inv; apply (M2CryptoDriver_inv km2 cnf2 e2 H2)).
  rewrite crypt_evp in Hc by exact Hd1.
  assert (Hcc : c = string_of_list_ascii (cbc_pkcs_encrypt bc
            (list_ascii_of_string (key_value km2 (attrs km2 d2)))
            (list_ascii_of_string hardcoded_iv) (list_ascii_of_string p)))
    by (rewrite <- Hk; congruence).
  split; [rewrite crypt_evp by exact Hd2; now rewrite Hcc|].
  rewrite decrypt_evp by exact Hd2. rewrite Hcc.
  rewrite list_ascii_of_string_of_list_ascii.
  rewrite (cbc_pkcs_decrypt_encrypt bc Hbc) by reflexivity.
  now rewrite string_of_list_ascii_of_string.
Qed.

Lemma decrypt_crypt_across_drivers_witness :
  let cnf2 : conf_dict := {[ "crypto_keystore_driver" := PyStr "keystore" ]} in
  let km2 := strict_key_manager {[ "other" := "0123456789abcdef" ]} in
  let e2 := M2CryptoDriverObj km2
              (Build_CryptoDriver km2 cnf2 (PyStr "aes_128_cbc")
                 {[ "other" := "0123456789abcdef" ]} EmptyString) hardcoded_iv in
  let d1 := run_calls example_km (evp aes128)
              [Call_get_key_value "k2"; Call_crypt "x"; Call_get_key_value "k1"]
              example_driver in
  let d2 := run_calls km2 (evp aes128)
              [Call_get_key_value "other"; Call_get_key_value "missing"] e2 in
  let c := string_of_list_ascii
             (of_hex [0xb1; 0x82; 0x37; 0x00; 0x38; 0xff; 0xad; 0x0e;
                      0x58; 0x71; 0x94; 0x2b; 0x1b; 0x07; 0x4a; 0x95]%N) in
  crypt km2 (evp aes128) "hello world" d2 = (Return (PyStr c), d2) ∧
  decrypt km2 (evp aes128) c d2 = (Return (PyStr "hello world"), d2).
Proof.
  intros cnf2 km2 e2 d1 d2 c.
  apply (decrypt_crypt_across_drivers aes128 example_km km2 ∅ cnf2 example_driver e2
           [Call_get_key_value "k2"; Call_crypt "x"; Call_get_key_value "k1"]
           [Call_get_key_value "other"; Call_get_key_value "missing"]
           "hello world" c aes128_laws example_driver_constructed).
  - vm_compute. reflexivity.
  - vm_compute. reflexivity.
  - vm_compute. reflexivity.
Defined.

(** X6. When the cipher object raises a [ValueError] whose first argument
    is not ['unknown cipher'], the [except] clause of [crypt] and of
    [decrypt] ends without raising: the method returns [None], and
    [crypted_len], which measures [str(None)], returns 4. *)
Theorem ValueError_returns_None (km : KeyManager) (lib : CipherLibrary)
    (self : CryptoDriver km) (iv chunk : string) (n : Z) (a0 : pyval)
    (args : list pyval) :
  a0 ≠ PyStr "unknown cipher" →
  let d := M2CryptoDriverObj km self iv in
  let e := Exn ValueError (a0 :: args) in
  let fails op s := cipher_fails lib (protocol km self) (key_value km self) iv op s e in
  (fails 1 chunk → crypt km lib chunk d = (Return PyNone, d)) ∧
  (fails 0 chunk → decrypt km lib chunk d = (Return PyNone, d)) ∧
  (fails 1 (str_repeat "a" n) → crypted_len km lib n d = (Return 4, d)).
Proof.
  intros Hne d e fails. subst d e fails. cbv beta.
  assert (Hx : except_clause (Exn ValueError (a0 :: args)) = Return PyNone)
    by (cbn; now rewrite decide_False).
  split; [|split]; intros Hf.
  - cbn [crypt]. rewrite (cipher_body_fails _ _ _ _ _ _ _ Hf).
    cbn [try_except_ValueError exn_cls]. now rewrite Hx.
  - cbn [decrypt]. rewrite (cipher_body_fails _ _ _ _ _ _ _ Hf).
    cbn [try_except_ValueError exn_cls]. now rewrite Hx.
  - unfold crypted_len, mbind, method_bind. cbn [crypt].
    rewrite (cipher_body_fails _ _ _ _ _ _ _ Hf).
    cbn [try_except_ValueError exn_cls]. now rewrite Hx.
Qed.

Lemma ValueError_returns_None_witness :
  let lib := raising_cipher (Exn ValueError [PyStr "object too large"]) in
  let d := example_driver in
  (crypt example_km lib "hello" d = (Return PyNone, d)) ∧
  (decrypt example_km lib "hello" d = (Return PyNone, d)) ∧
  (crypted_len example_km lib 100 d = (Return 4, d)).
Proof.
  intros lib d.
  destruct (ValueError_returns_None example_km lib (attrs example_km example_driver)
              hardcoded_iv "hello" 100 (PyStr "object too large") []
              ltac:(discriminate)) as (H1 & H2 & H3).
  split; [apply H1; now left | split; [apply H2; now left | apply H3; now left]].
Defined.

(** X7. Through the factory: when [import_class] resolves the path to the
    class [M2CryptoDriver], [get_driver(conf, path)] is what the class
    returns or raises for [conf], the protocol check included; and on the
    driver it returns, after a [get_key_value] call, [decrypt] of what
    [crypt] returns for [p] is [p]. When [import_class] raises, so does
    [get_driver]. *)
Theorem get_driver_M2CryptoDriver (bc : BlockCipher) (km : KeyManager)
    (import_class : pyval → outcome (driver_class km)) (cnf : conf_dict)
    (path : pyval) (key_id p : string) :
  BlockCipherLaws bc →
  import_class path = Return (M2CryptoDriver km) →
  get_driver km import_class cnf path = M2CryptoDriver km cnf ∧
  (∀ path' e, import_class path' = Raise e → get_driver km import_class cnf path' = Raise e) ∧
  (∀ d0, get_driver km import_class cnf path = Return d0 →
     let d := (get_key_value km key_id d0).2 in
     ∃ c, crypt km (evp bc) p d = (Return (PyStr c), d) ∧
          decrypt km (evp bc) c d = (Return (PyStr p), d)).
Proof.
  intros Hbc Hi. unfold get_driver. rewrite Hi. cbn [mbind outcome_bind].
  split; [reflexivity|]. split; [intros path' e ->; reflexivity|].
  intros d0 Hd0. set (d := (get_key_value km key_id d0).2).
  assert (Hd : M2_invariant km d)
    by (apply get_key_value_inv; apply (M2CryptoDriver_inv km cnf d0 Hd0)).
  eexists. split; [apply crypt_evp, Hd|].
  rewrite decrypt_evp by exact Hd.
  rewrite list_ascii_of_string_of_list_ascii.
  rewrite (cbc_pkcs_decrypt_encrypt bc Hbc) by reflexivity.
  now rewrite string_of_list_ascii_of_string.
Qed.

Lemma get_driver_M2CryptoDriver_witness :
  let import_class := module_import_class example_km in
  let path := PyStr "swift.obj.encryptor.M2CryptoDriver" in
  get_driver example_km import_class ∅ path = M2CryptoDriver example_km ∅ ∧
  (∀ path' e, import_class path' = Raise e →
     get_driver example_km import_class ∅ path' = Raise e) ∧
  (∀ d0, get_driver example_km import_class ∅ path = Return d0 →
     let d := (get_key_value example_km "k1" d0).2 in
     ∃ c, crypt example_km (evp aes128) "hello" d = (Return (PyStr c), d) ∧
          decrypt example_km (evp aes128) c d = (Return (PyStr "hello"), d)).
Proof.
  exact (get_driver_M2CryptoDriver aes128 example_km (module_import_class example_km)
           ∅ (PyStr "swift.obj.encryptor.M2CryptoDriver") "k1" "hello"
           aes128_laws eq_refl).
Defined.

(** ** Lengths, prefixes and changed blocks in the CBC chain *)

Lemma list_ascii_of_string_app (s1 s2 : string) :
  list_ascii_of_string (s1 +:+ s2) = list_ascii_of_string s1 ++ list_ascii_of_string s2.
Proof. induction s1 as [|c s1 IH]; simpl; [reflexivity | now rewrite IH]. Qed.

Lemma length_append (s1 s2 : string) :
  String.length (s1 +:+ s2) = (String.length s1 + String.length s2)%nat.
Proof. induction s1 as [|c s1 IH]; simpl; [reflexivity | now rewrite IH]. Qed.

Section Chain_facts.

Variable bc : BlockCipher.

Lemma cbc_pkcs_decrypt_wrong_length key iv c :
  (length c = 0 ∨ length c `mod` block_size ≠ 0)%nat ↔
  cbc_pkcs_decrypt bc key iv c = Raise (evp_error "wrong final block length").
Proof.
  unfold cbc_pkcs_decrypt.
  set (n := ((length c - 1) / block_size)%nat).
  assert (Hb : length (drop (n * block_size) c) = block_size ↔
               ¬ (length c = 0 ∨ length c `mod` block_size ≠ 0)%nat).
  { rewrite length_drop. subst n.
    pose proof (Nat.div_mod_eq (length c - 1) block_size).
    pose proof (Nat.mod_upper_bound (length c - 1) block_size).
    pose proof (Nat.div_mod_eq (length c) block_size).
    pose proof (Nat.mod_upper_bound (length c) block_size).
    lia. }
  destruct (cbc_decrypt bc n key (take block_size iv) c) as [out chain].
  destruct (decide _) as [Hne|He].
  - split; [reflexivity|]. intros _.
    destruct (decide (length c = 0 ∨ length c `mod` block_size ≠ 0)%nat) as [|Hn];
      [assumption|]. now apply Hb in Hn.
  - split.
    + intros H. exfalso. apply Hb; [|exact H].
      destruct (decide (length (drop (n * block_size) c) = block_size));
        [assumption | contradiction].
    + destruct (pkcs_unpad _); intros H; discriminate H.
Qed.

Lemma cbc_encrypt_take n key chain data :
  cbc_encrypt bc n key chain (take (n * block_size) data) = cbc_encrypt bc n key chain data.
Proof.
  revert chain data. induction n as [|n IH]; intros chain data; [reflexivity|].
  cbn [cbc_encrypt]. rewrite take_take.
  replace (block_size `min` (S n * block_size))%nat with block_size by lia.
  replace (drop block_size (take (S n * block_size) data))
    with (take (n * block_size) (drop block_size data))
    by (rewrite take_drop_commute; f_equal; f_equal; lia).
  now rewrite IH.
Qed.

Hypothesis bc_laws : BlockCipherLaws bc.

Lemma cbc_encrypt_prefix k m key chain data :
  length chain = block_size → ((k + m) * block_size ≤ length data)%nat →
  take (k * block_size) (cbc_encrypt bc (k + m) key chain data).1
  = (cbc_encrypt bc k key chain data).1.
Proof.
  revert chain data. induction k as [|k IH]; intros chain data Hc Hd.
  - now rewrite take_0.
  - cbn [Nat.add cbc_encrypt].
    set (c := block_encrypt bc key (xor_bytes (take block_size data) chain)).
    assert (Hlc : length c = block_size).
    { apply (block_encrypt_length bc bc_laws). rewrite length_xor_bytes;
        rewrite length_take; lia. }
    specialize (IH c (drop block_size data) Hlc).
    rewrite length_drop in IH. specialize (IH ltac:(lia)).
    destruct (cbc_encrypt bc (k + m) key c (drop block_size data)) as [out ch].
    destruct (cbc_encrypt bc k key c (drop block_size data)) as [out' ch'].
    cbn [fst] in *. rewrite take_app, (take_ge c) by lia.
    replace (S k * block_size - length c)%nat with (k * block_size)%nat by lia.
    now rewrite IH.
Qed.

(** The first [k] blocks of a ciphertext come from the first [k] blocks of
    the plaintext alone. *)
Lemma cbc_pkcs_encrypt_prefix k key iv p :
  length iv = block_size → (k * block_size ≤ length p)%nat →
  take (k * block_size) (cbc_pkcs_encrypt bc key iv p)
  = (cbc_encrypt bc k key (take block_size iv) (take (k * block_size) p)).1.
Proof.
  intros Hiv Hk. unfold cbc_pkcs_encrypt.
  set (n := (length p / block_size)%nat).
  assert (Hn : (n * block_size ≤ length p)%nat).
  { subst n. pose proof (Nat.Div0.mul_div_le (length p) block_size). lia. }
  assert (Hkn : (k ≤ n)%nat).
  { subst n. apply Nat.div_le_lower_bound; lia. }
  assert (Hiv' : length (take block_size iv) = block_size)
    by (rewrite length_take; lia).
  pose proof (cbc_encrypt_prefix k (n - k) key (take block_size iv) p Hiv') as Hp.
  replace (k + (n - k))%nat with n in Hp by lia. specialize (Hp Hn).
  destruct (cbc_encrypt_length bc bc_laws n key (take block_size iv) p Hiv' Hn)
    as [H1 _].
  destruct (cbc_encrypt bc n key (take block_size iv) p) as [out chain].
  cbn [fst] in *. rewrite take_app_le by lia.
  now rewrite Hp, cbc_encrypt_take.
Qed.

Lemma length_cbc_pkcs_decrypt key iv c p :
  length iv = block_size →
  cbc_pkcs_decrypt bc key iv c = Return p →
  (length c - block_size ≤ length p < length c)%nat.
Proof.
  intros Hiv Hd.
  assert (Hl : ¬ (length c = 0 ∨ length c `mod` block_size ≠ 0)%nat).
  { intros H. apply (cbc_pkcs_decrypt_wrong_length key iv c) in H. congruence. }
  unfold cbc_pkcs_decrypt in Hd.
  set (n := ((length c - 1) / block_size)%nat) in *.
  assert (Hn : (length c = n * block_size + block_size)%nat).
  { subst n.
    pose proof (Nat.div_mod_eq (length c - 1) block_size).
    pose proof (Nat.mod_upper_bound (length c - 1) block_size).
    pose proof (Nat.div_mod_eq (length c) block_size).
    pose proof (Nat.mod_upper_bound (length c) block_size).
    lia. }
  assert (Hiv' : length (take block_size iv) = block_size)
    by (rewrite length_take; lia).
  pose proof (cbc_decrypt_length bc bc_laws n key (take block_size iv) c Hiv') as Ho.
  specialize (Ho ltac:(lia)).
  destruct (cbc_decrypt bc n key (take block_size iv) c) as [out chain].
  cbn [fst] in Ho.
  destruct (decide _); [discriminate Hd|].
  destruct (pkcs_unpad _) as [q|] eqn:Hu; [|discriminate Hd].
  injection Hd as <-. unfold pkcs_unpad in Hu.
  destruct (decide _) as [|Hq]; [discriminate Hu|].
  destruct (decide _); [|discriminate Hu]. injection Hu as <-.
  rewrite length_app, length_take, Ho.
  change (16 - 1)%nat with 15%nat in *. lia.
Qed.

End Chain_facts.

Section Changed_block.

Variable bc : BlockCipher.
Hypothesis bc_laws : BlockCipherLaws bc.

(** Changing the first block of a ciphertext of three blocks or more
    changes the first two blocks of what decryption returns, and nothing
    else: no error comes of it. *)
Lemma cbc_pkcs_decrypt_first_block key iv b1 b1' rest p :
  length iv = block_size → length b1 = block_size → length b1' = block_size →
  (2 * block_size ≤ length rest)%nat →
  cbc_pkcs_decrypt bc key iv (b1 ++ rest) = Return p →
  ∃ h h' t, p = h ++ t ∧ cbc_pkcs_decrypt bc key iv (b1' ++ rest) = Return (h' ++ t) ∧
            length h = (2 * block_size)%nat ∧ length h' = (2 * block_size)%nat.
Proof.
  intros Hiv Hb Hb' Hr. unfold cbc_pkcs_decrypt.
  rewrite !length_app, Hb, Hb'.
  set (n := ((block_size + length rest - 1) / block_size)%nat).
  assert (Hn2 : (2 ≤ n)%nat) by (subst n; apply Nat.div_le_lower_bound; lia).
  destruct n as [|[|m]]; [lia | lia |]. clear Hn2.
  cbn [cbc_decrypt].
  rewrite (take_app_length' b1 rest), (take_app_length' b1' rest)
    by (symmetry; assumption).
  rewrite (drop_app_length' b1 rest), (drop_app_length' b1' rest)
    by (symmetry; assumption).
  destruct (cbc_decrypt bc m key (take block_size rest) (drop block_size rest))
    as [out chain].
  rewrite !drop_app_ge by lia. rewrite Hb, Hb'.
  set (buf := drop (S (S m) * block_size - block_size) rest).
  assert (Hiv' : length (take block_size iv) = block_size)
    by (rewrite length_take; lia).
  assert (Ht : length (take block_size rest) = block_size)
    by (rewrite length_take; lia).
  destruct (decide _); [discriminate|].
  destruct (pkcs_unpad _) as [q|]; [|discriminate].
  intros [= <-].
  exists (xor_bytes (block_decrypt bc key b1) (take block_size iv) ++
          xor_bytes (block_decrypt bc key (take block_size rest)) b1),
         (xor_bytes (block_decrypt bc key b1') (take block_size iv) ++
          xor_bytes (block_decrypt bc key (take block_size rest)) b1'),
         (out ++ q).
  rewrite <- !app_assoc. repeat split.
  - rewrite length_app, !length_xor_bytes;
      rewrite ?(block_decrypt_length bc bc_laws); lia.
  - rewrite length_app, !length_xor_bytes;
      rewrite ?(block_decrypt_length bc bc_laws); lia.
Qed.

End Changed_block.

Lemma cbc_pkcs_decrypt_errors (bc : BlockCipher) key iv c e :
  cbc_pkcs_decrypt bc key iv c = Raise e →
  e = evp_error "wrong final block length" ∨ e = evp_error "bad decrypt".
Proof.
  unfold cbc_pkcs_decrypt. destruct (cbc_decrypt bc _ _ _ _) as [out chain].
  destruct (decide _); [intros [= <-]; now left|].
  destruct (pkcs_unpad _); [discriminate | intros [= <-]; now right].
Qed.

Lemma len_mod_block (s : string) :
  (len s = 0 ∨ len s `mod` 16 ≠ 0) ↔
  (length (list_ascii_of_string s) = 0 ∨
   length (list_ascii_of_string s) `mod` block_size ≠ 0)%nat.
Proof.
  rewrite length_list_ascii_of_string. unfold len.
  change 16 with (Z.of_nat block_size). rewrite <- Nat2Z.inj_mod. lia.
Qed.

(** X8. [crypted_len] of the block-cipher driver, for every integer [n]:
    it returns [16 * (max(0, n) / 16 + 1)], a multiple of 16 that exceeds
    the length by 1 to 16; a negative [n] counts as 0. It never raises. *)
Theorem M2CryptoDriver_crypted_len (bc : BlockCipher) (km : KeyManager)
    (cnf : conf_dict) (e : Driver km) (cs : list call) (n : Z) :
  BlockCipherLaws bc →
  M2CryptoDriver km cnf = Return e →
  let d := run_calls km (evp bc) cs e in
  let v := 16 * (Z.max 0 n / 16 + 1) in
  crypted_len km (evp bc) n d = (Return v, d) ∧
  v `mod` 16 = 0 ∧ Z.max 0 n < v ≤ Z.max 0 n + 16.
Proof.
  intros Hbc He d v.
  assert (Hd : M2_invariant km d)
    by (apply run_calls_inv; apply (M2CryptoDriver_inv km cnf e He)).
  split; [|split].
  - unfold crypted_len, mbind, method_bind. rewrite crypt_evp by exact Hd.
    unfold mret, method_ret. cbn [py_str].
    rewrite len_cbc_pkcs_encrypt by (exact Hbc || reflexivity).
    now rewrite len_str_repeat.
  - subst v. rewrite Z.mul_comm. apply Z_mod_mult.
  - subst v. pose proof (Z.div_mod (Z.max 0 n) 16 ltac:(lia)).
    pose proof (Z.mod_pos_bound (Z.max 0 n) 16 ltac:(lia)). lia.
Qed.

Lemma M2CryptoDriver_crypted_len_witness :
  let d := run_calls example_km (evp aes128) [Call_get_key_value "k1"] example_driver in
  let v := 16 * (Z.max 0 (-5) / 16 + 1) in
  crypted_len example_km (evp aes128) (-5) d = (Return v, d) ∧
  v `mod` 16 = 0 ∧ Z.max 0 (-5) < v ≤ Z.max 0 (-5) + 16.
Proof.
  exact (M2CryptoDriver_crypted_len aes128 example_km ∅ example_driver
           [Call_get_key_value "k1"] (-5) aes128_laws example_driver_constructed).
Defined.

(** X9. [decrypt] of the block-cipher driver raises the cipher object's
    [EVPError('wrong final block length')] exactly for the chunks that are
    not a whole number of blocks, at least one: the empty string, and every
    string whose length is not a multiple of 16. *)
Theorem decrypt_wrong_final_block_length (bc : BlockCipher) (km : KeyManager)
    (cnf : conf_dict) (e : Driver km) (cs : list call) (c : string) :
  M2CryptoDriver km cnf = Return e →
  let d := run_calls km (evp bc) cs e in
  (len c = 0 ∨ len c `mod` 16 ≠ 0) ↔
  decrypt km (evp bc) c d = (Raise (Exn EVPError [PyStr "wrong final block length"]), d).
Proof.
  intros He d.
  assert (Hd : M2_invariant km d)
    by (apply run_calls_inv; apply (M2CryptoDriver_inv km cnf e He)).
  rewrite decrypt_evp by exact Hd. rewrite len_mod_block.
  rewrite (cbc_pkcs_decrypt_wrong_length bc
             (list_ascii_of_string (key_value km (attrs km d)))
             (list_ascii_of_string hardcoded_iv) (list_ascii_of_string c)).
  destruct (cbc_pkcs_decrypt bc _ _ _) as [q|x].
  - split; intros H; discriminate H.
  - split; [intros [= ->]; reflexivity | intros [= ->]; reflexivity].
Qed.

Lemma decrypt_wrong_final_block_length_witness :
  let d := run_calls example_km (evp aes128) [Call_get_key_value "k1"] example_driver in
  (len EmptyString = 0 ∨ len EmptyString `mod` 16 ≠ 0) ↔
  decrypt example_km (evp aes128) EmptyString d
  = (Raise (Exn EVPError [PyStr "wrong final block length"]), d).
Proof.
  exact (decrypt_wrong_final_block_length aes128 example_km ∅ example_driver
           [Call_get_key_value "k1"] EmptyString example_driver_constructed).
Defined.

(** X10. [decrypt] of the block-cipher driver on a chunk of one or more
    whole blocks either raises the cipher object's [EVPError('bad
    decrypt')] or returns a string that is shorter than the chunk by 1 to
    16 bytes; it returns no [None] and raises nothing else. *)
Theorem decrypt_whole_blocks (bc : BlockCipher) (km : KeyManager)
    (cnf : conf_dict) (e : Driver km) (cs : list call) (c : string) :
  BlockCipherLaws bc →
  M2CryptoDriver km cnf = Return e →
  0 < len c → len c `mod` 16 = 0 →
  let d := run_calls km (evp bc) cs e in
  decrypt km (evp bc) c d = (Raise (Exn EVPError [PyStr "bad decrypt"]), d) ∨
  ∃ p, decrypt km (evp bc) c d = (Return (PyStr p), d) ∧
       len c - 16 ≤ len p < len c.
Proof.
  intros Hbc He Hc0 Hc16 d.
  assert (Hd : M2_invariant km d)
    by (apply run_calls_inv; apply (M2CryptoDriver_inv km cnf e He)).
  rewrite decrypt_evp by exact Hd.
  destruct (cbc_pkcs_decrypt bc _ _ _) as [q|x] eqn:E.
  - right. eexists. split; [reflexivity|].
    apply (length_cbc_pkcs_decrypt bc Hbc) in E; [|reflexivity].
    rewrite length_list_ascii_of_string in E.
    rewrite len_string_of_list_ascii. unfold len in *. lia.
  - left. destruct (cbc_pkcs_decrypt_errors bc _ _ _ _ E) as [-> | ->]; [|reflexivity].
    apply cbc_pkcs_decrypt_wrong_length, len_mod_block in E. lia.
Qed.

Lemma decrypt_whole_blocks_witness :
  let d := run_calls example_km (evp aes128) [Call_get_key_value "k1"] example_driver in
  let c := "sixteen letters." in
  decrypt example_km (evp aes128) c d = (Raise (Exn EVPError [PyStr "bad decrypt"]), d) ∨
  ∃ p, decrypt example_km (evp aes128) c d = (Return (PyStr p), d) ∧
       len c - 16 ≤ len p < len c.
Proof.
  apply (decrypt_whole_blocks aes128 example_km ∅ example_driver
           [Call_get_key_value "k1"] "sixteen letters." aes128_laws
           example_driver_constructed); reflexivity.
Defined.

(** X11. With the same key bound, [crypt] returns different ciphertexts
    for different chunks. *)
Theorem crypt_injective (bc : BlockCipher) (km : KeyManager)
    (cnf : conf_dict) (e : Driver km) (cs : list call) (p1 p2 c1 c2 : string) :
  BlockCipherLaws bc →
  M2CryptoDriver km cnf = Return e →
  let d := run_calls km (evp bc) cs e in
  crypt km (evp bc) p1 d = (Return (PyStr c1), d) →
  crypt km (evp bc) p2 d = (Return (PyStr c2), d) →
  p1 ≠ p2 → c1 ≠ c2.
Proof.
  intros Hbc He d H1 H2 Hne Hc. apply Hne. subst c2.
  assert (Hd : M2_invariant km d)
    by (apply run_calls_inv; apply (M2CryptoDriver_inv km cnf e He)).
  rewrite crypt_evp in H1, H2 by exact Hd.
  assert (H : cbc_pkcs_encrypt bc (list_ascii_of_string (key_value km (attrs km d)))
                (list_ascii_of_string hardcoded_iv) (list_ascii_of_string p1)
              = cbc_pkcs_encrypt bc (list_ascii_of_string (key_value km (attrs km d)))
                (list_ascii_of_string hardcoded_iv) (list_ascii_of_string p2)).
  { rewrite <- (list_ascii_of_string_of_list_ascii (cbc_pkcs_encrypt bc _ _ _)).
    rewrite <- (list_ascii_of_string_of_list_ascii
                  (cbc_pkcs_encrypt bc _ _ (list_ascii_of_string p2))).
    congruence. }
  apply (f_equal (cbc_pkcs_decrypt bc
           (list_ascii_of_string (key_value km (attrs km d)))
           (list_ascii_of_string hardcoded_iv))) in H.
  rewrite !(cbc_pkcs_decrypt_encrypt bc Hbc) in H by reflexivity.
  injection H as H.
  rewrite <- (string_of_list_ascii_of_string p1), <- (string_of_list_ascii_of_string p2).
  now rewrite H.
Qed.

Lemma crypt_injective_witness :
  let enc p := string_of_list_ascii (cbc_pkcs_encrypt aes128
                 (list_ascii_of_string "0123456789abcdef")
                 (list_ascii_of_string hardcoded_iv) (list_ascii_of_string p)) in
  enc "hello world" ≠ enc "hello World".
Proof.
  intros enc.
  apply (crypt_injective aes128 example_km ∅ example_driver [Call_get_key_value "k1"]
           "hello world" "hello World" (enc "hello world") (enc "hello World")
           aes128_laws example_driver_constructed).
  - vm_compute. reflexivity.
  - vm_compute. reflexivity.
  - discriminate.
Defined.

(** X12. With the same key bound, two chunks that begin with the same
    whole blocks have ciphertexts that begin with the same bytes, as many:
    [crypt(pre + s1)] and [crypt(pre + s2)] share their first [len(pre)]
    bytes when [len(pre)] is a multiple of 16. Every call starts the chain
    from the same initial vector. *)
Theorem crypt_common_prefix (bc : BlockCipher) (km : KeyManager)
    (cnf : conf_dict) (e : Driver km) (cs : list call) (pre s1 s2 c1 c2 : string) :
  BlockCipherLaws bc →
  M2CryptoDriver km cnf = Return e →
  len pre `mod` 16 = 0 →
  let d := run_calls km (evp bc) cs e in
  crypt km (evp bc) (pre +:+ s1) d = (Return (PyStr c1), d) →
  crypt km (evp bc) (pre +:+ s2) d = (Return (PyStr c2), d) →
  ∃ cpre t1 t2, c1 = cpre +:+ t1 ∧ c2 = cpre +:+ t2 ∧ len cpre = len pre.
Proof.
  intros Hbc He Hpre d H1 H2.
  assert (Hd : M2_invariant km d)
    by (apply run_calls_inv; apply (M2CryptoDriver_inv km cnf e He)).
  rewrite crypt_evp in H1, H2 by exact Hd.
  set (key := list_ascii_of_string (key_value km (attrs km d))) in *.
  set (iv := list_ascii_of_string hardcoded_iv) in *.
  set (k := (String.length pre / block_size)%nat).
  assert (Hk : (length (list_ascii_of_string pre) = k * block_size)%nat).
  { rewrite length_list_ascii_of_string. subst k. unfold len in Hpre.
    change 16 with (Z.of_nat block_size) in Hpre. rewrite <- Nat2Z.inj_mod in Hpre.
    pose proof (Nat.div_mod_eq (String.length pre) block_size). lia. }
  assert (Hpfx : ∀ s, take (k * block_size)
            (cbc_pkcs_encrypt bc key iv (list_ascii_of_string (pre +:+ s)))
          = (cbc_encrypt bc k key (take block_size iv) (list_ascii_of_string pre)).1).
  { intros s. rewrite (cbc_pkcs_encrypt_prefix bc Hbc) by
      (reflexivity || (rewrite list_ascii_of_string_app, length_app; lia)).
    rewrite list_ascii_of_string_app, take_app_length'; [reflexivity | now symmetry]. }
  assert (Hsplit : ∀ s, string_of_list_ascii
            (cbc_pkcs_encrypt bc key iv (list_ascii_of_string (pre +:+ s)))
          = string_of_list_ascii
              (cbc_encrypt bc k key (take block_size iv) (list_ascii_of_string pre)).1
            +:+ string_of_list_ascii (drop (k * block_size)
                  (cbc_pkcs_encrypt bc key iv (list_ascii_of_string (pre +:+ s))))).
  { intros s. rewrite <- (Hpfx s), <- string_of_list_ascii_app. now rewrite take_drop. }
  eexists _, _, _. split; [|split].
  - injection H1 as <-. apply Hsplit.
  - injection H2 as <-. apply Hsplit.
  - rewrite len_string_of_list_ascii.
    destruct (cbc_encrypt_length bc Hbc k key (take block_size iv)
                (list_ascii_of_string pre)) as [Hl _];
      [rewrite length_take; subst iv; cbn; lia | lia |].
    rewrite Hl, <- Hk, length_list_ascii_of_string. reflexivity.
Qed.

Lemma crypt_common_prefix_witness :
  let c1 := string_of_list_ascii (cbc_pkcs_encrypt aes128
              (list_ascii_of_string "0123456789abcdef")
              (list_ascii_of_string hardcoded_iv)
              (list_ascii_of_string ("sixteen letters." +:+ "one"))) in
  let c2 := string_of_list_ascii (cbc_pkcs_encrypt aes128
              (list_ascii_of_string "0123456789abcdef")
              (list_ascii_of_string hardcoded_iv)
              (list_ascii_of_string ("sixteen letters." +:+ "another"))) in
  ∃ cpre t1 t2, c1 = cpre +:+ t1 ∧ c2 = cpre +:+ t2 ∧ len cpre = len "sixteen letters.".
Proof.
  intros c1 c2.
  apply (crypt_common_prefix aes128 example_km ∅ example_driver
           [Call_get_key_value "k1"] "sixteen letters." "one" "another" c1 c2
           aes128_laws example_driver_constructed).
  - reflexivity.
  - vm_compute. reflexivity.
  - vm_compute. reflexivity.
Defined.

(** X13. [decrypt] checks no integrity: when a chunk of three blocks or
    more decrypts to [p], the chunk with its first block replaced by any
    other 16 bytes decrypts too, to a string that differs from [p] in its
    first 32 bytes at most. *)
Theorem decrypt_changed_first_block (bc : BlockCipher) (km : KeyManager)
    (cnf : conf_dict) (e : Driver km) (cs : list call) (b1 b1' rest p : string) :
  BlockCipherLaws bc →
  M2CryptoDriver km cnf = Return e →
  len b1 = 16 → len b1' = 16 → 32 ≤ len rest →
  let d := run_calls km (evp bc) cs e in
  decrypt km (evp bc) (b1 +:+ rest) d = (Return (PyStr p), d) →
  ∃ h h' t, p = h +:+ t ∧
            decrypt km (evp bc) (b1' +:+ rest) d = (Return (PyStr (h' +:+ t)), d) ∧
            len h = 32 ∧ len h' = 32.
Proof.
  intros Hbc He Hb Hb' Hr d H.
  assert (Hd : M2_invariant km d)
    by (apply run_calls_inv; apply (M2CryptoDriver_inv km cnf e He)).
  rewrite decrypt_evp in * by exact Hd.
  rewrite !list_ascii_of_string_app in *.
  unfold len in Hb, Hb', Hr.
  destruct (cbc_pkcs_decrypt bc _ _ (list_ascii_of_string b1 ++ _)) as [q|x] eqn:E;
    [|discriminate H].
  injection H as <-.
  apply (cbc_pkcs_decrypt_first_block bc Hbc _ _ _ (list_ascii_of_string b1'))
    in E as (h & h' & t & -> & E' & Hh & Hh');
    rewrite ?length_list_ascii_of_string; try reflexivity; try lia.
  exists (string_of_list_ascii h), (string_of_list_ascii h'), (string_of_list_ascii t).
  rewrite E', !string_of_list_ascii_app, !len_string_of_list_ascii, Hh, Hh'.
  repeat split.
Qed.

Lemma decrypt_changed_first_block_witness :
  let d := run_calls example_km (evp aes128) [Call_get_key_value "k1"] example_driver in
  let c := cbc_pkcs_encrypt aes128 (list_ascii_of_string "0123456789abcdef")
             (list_ascii_of_string hardcoded_iv)
             (list_ascii_of_string "a chunk of forty bytes, in three blocks.") in
  let rest := string_of_list_ascii (drop 16 c) in
  ∃ h h' t, "a chunk of forty bytes, in three blocks." = h +:+ t ∧
            decrypt example_km (evp aes128) ("sixteen letters." +:+ rest) d
            = (Return (PyStr (h' +:+ t)), d) ∧
            len h = 32 ∧ len h' = 32.
Proof.
  intros d c rest.
  apply (decrypt_changed_first_block aes128 example_km ∅ example_driver
           [Call_get_key_value "k1"] (string_of_list_ascii (take 16 c))
           "sixteen letters." rest "a chunk of forty bytes, in three blocks."
           aes128_laws example_driver_constructed).
  - vm_compute. reflexivity.
  - reflexivity.
  - vm_compute. discriminate.
  - vm_compute. reflexivity.
Defined.
